(** * Verification of the PNG -> GeoTIFF batch converter (geotiffconverter.py)

    The development embeds, as Rocq functions,
    - [parse_map], the calibration (.map) parser, together with the pieces of
      Python it runs on: strict UTF-8 decoding, [str.splitlines],
      [str.split], [str.startswith], slicing, [float] and the [coords] dict;
    - [from_bounds] (rasterio) with the [Affine] arithmetic it is made of,
      over IEEE binary64, with the value of a float as a real number and
      the rounding error of its operations;
    - the eager calibration parse and the conversion loop of the
      "Convert to GeoTIFF" handler, as a state-passing program over the
      temporary files, the archive and the conversion summary.

    Python [str] values are lists of code points, [bytes] are lists of
    [Byte.byte], Python floats are binary64 values ([spec_float] with
    precision 53 and maximal exponent 1024), dicts are [gmap]s, exceptions
    caught by [except Exception] are explicit error results. *)

From Stdlib Require Import ZArith NArith List String Ascii Strings.Byte Lia.
From Stdlib Require Import Floats.SpecFloat.
From Stdlib Require Import Reals Lra.
From stdpp Require Import gmap strings sorting.

Local Open Scope N_scope.

(** ** Python text *)

Module Py.

(** A [str] is a sequence of Unicode code points. *)
Definition str := list N.

(** ASCII literals of the source, as [str] and as [bytes]. *)
Definition lit (s : string) : str := map N_of_ascii (list_ascii_of_string s).
Definition blit (s : string) : list byte := list_byte_of_string s.

(** The bytes of a file made of the given ASCII lines, each closed by \n. *)
Definition unlines (ls : list string) : list byte :=
  concat (map (fun l => blit l ++ [x0a]) ls).

Definition in_range (lo hi b : N) : bool := (lo <=? b) && (b <=? hi).
Definition is_cont (b : N) : bool := in_range 0x80 0xBF b.
Definition low6 (b : N) : N := N.land b 0x3F.

(** [bytes.decode("utf-8")] in strict mode: the well-formed byte sequences
    of the Unicode standard (no overlong forms, no surrogates, nothing above
    U+10FFFF); [None] stands for UnicodeDecodeError. *)
Fixpoint utf8_decode_N (bs : list N) : option str :=
  match bs with
  | [] => Some []
  | b0 :: r0 =>
    if b0 <? 0x80 then cons b0 <$> utf8_decode_N r0
    else if in_range 0xC2 0xDF b0 then
      match r0 with
      | b1 :: r1 =>
        if is_cont b1
        then cons (N.lor (N.shiftl (N.land b0 0x1F) 6) (low6 b1)) <$> utf8_decode_N r1
        else None
      | _ => None
      end
    else if in_range 0xE0 0xEF b0 then
      match r0 with
      | b1 :: b2 :: r2 =>
        if in_range (if b0 =? 0xE0 then 0xA0 else 0x80)
                    (if b0 =? 0xED then 0x9F else 0xBF) b1 && is_cont b2
        then cons (N.lor (N.shiftl (N.land b0 0x0F) 12)
                    (N.lor (N.shiftl (low6 b1) 6) (low6 b2))) <$> utf8_decode_N r2
        else None
      | _ => None
      end
    else if in_range 0xF0 0xF4 b0 then
      match r0 with
      | b1 :: b2 :: b3 :: r3 =>
        if in_range (if b0 =? 0xF0 then 0x90 else 0x80)
                    (if b0 =? 0xF4 then 0x8F else 0xBF) b1 && is_cont b2 && is_cont b3
        then cons (N.lor (N.shiftl (N.land b0 0x07) 18)
                    (N.lor (N.shiftl (low6 b1) 12)
                      (N.lor (N.shiftl (low6 b2) 6) (low6 b3)))) <$> utf8_decode_N r3
        else None
      | _ => None
      end
    else None
  end.

Definition decode_utf8 (bs : list byte) : option str :=
  utf8_decode_N (map Byte.to_N bs).

(** The line boundaries of [str.splitlines]:
    \n, \v, \f, \r, \x1c, \x1d, \x1e, \x85, U+2028, U+2029. *)
Definition is_linebreak (c : N) : bool :=
  in_range 0x0A 0x0D c || in_range 0x1C 0x1E c || (c =? 0x85) ||
  (c =? 0x2028) || (c =? 0x2029).

Definition CR : N := 0x0D.
Definition LF : N := 0x0A.

(** Prefix a character to the first line of a list of lines (a text with no
    line yet starts one). *)
Definition cons_line (c : N) (ls : list str) : list str :=
  match ls with
  | [] => [[c]]
  | l :: ls' => (c :: l) :: ls'
  end.

(** [s.splitlines()]: lines without their terminators; \r\n is one
    terminator; a final terminator opens no empty last line. *)
Fixpoint splitlines (s : str) : list str :=
  match s with
  | [] => []
  | c :: s' =>
    if is_linebreak c then
      match s' with
      | c' :: s'' =>
        if (c =? CR) && (c' =? LF) then [] :: splitlines s'' else [] :: splitlines s'
      | [] => [[]]
      end
    else cons_line c (splitlines s')
  end.

(** [s.split(sep)] for a one-character separator: never empty, empty
    fields are kept. *)
Fixpoint split (sep : N) (s : str) : list str :=
  match s with
  | [] => [[]]
  | c :: s' => if c =? sep then [] :: split sep s' else cons_line c (split sep s')
  end.

(** [s.startswith(prefix)]. *)
Fixpoint startswith (s prefix : str) : bool :=
  match prefix, s with
  | [], _ => true
  | p :: prefix', c :: s' => (c =? p) && startswith s' prefix'
  | _ :: _, [] => false
  end.

(** The slice [l[i:j]] for 0 <= i <= j. *)
Definition slice {A} (i j : nat) (l : list A) : list A := take (j - i) (drop i l).

(** Unpacking an iterable into two targets: exactly two items, else
    ValueError. *)
Definition unpack2 {A} (xs : list A) : option (A * A) :=
  match xs with
  | [a; b] => Some (a, b)
  | _ => None
  end.

End Py.

Import Py.

(** ** The calibration parser *)

Definition COMMA : N := 0x2C.

Section ParseMap.

(** The value type of Python floats and the builtin [float] on [str];
    [None] is its ValueError. The binary64 instance is [py_float] below. *)
Context {F : Type}.
Variable float : str -> option F.

(** [map(float, line.split(",")[2:4])], unpacked into two targets. Every
    exception (a field that is no float, fewer than two fields) is an
    [Exception], hence [None]. *)
Definition fields (line : str) : option (F * F) :=
  mapM float (slice 2 4 (split COMMA line)) ≫= unpack2.

(** The body of [for line in lines]. *)
Definition parse_line (coords : gmap string F) (line : str) : option (gmap string F) :=
  if startswith line (lit "MMPLL, 1") then
    '(a, b) ← fields line; Some (<["maxy" := b]> (<["minx" := a]> coords))
  else if startswith line (lit "MMPLL, 2") then
    '(a, _) ← fields line; Some (<["maxx" := a]> coords)
  else if startswith line (lit "MMPLL, 3") then
    '(_, b) ← fields line; Some (<["miny" := b]> coords)
  else Some coords.

Fixpoint parse_lines (coords : gmap string F) (lines : list str) : option (gmap string F) :=
  match lines with
  | [] => Some coords
  | line :: rest => coords' ← parse_line coords line; parse_lines coords' rest
  end.

(** [return coords["minx"], coords["miny"], coords["maxx"], coords["maxy"]];
    a missing key is a KeyError. *)
Definition bounds_of (coords : gmap string F) : option (F * F * F * F) :=
  minx ← coords !! "minx"; miny ← coords !! "miny";
  maxx ← coords !! "maxx"; maxy ← coords !! "maxy";
  Some (minx, miny, maxx, maxy).

Definition parse_text (text : str) : option (F * F * F * F) :=
  parse_lines ∅ (splitlines text) ≫= bounds_of.

(** [parse_map(file_contents)]: [None] is the [return None] of the
    [except Exception] handler. *)
Definition parse_map (file_contents : list byte) : option (F * F * F * F) :=
  decode_utf8 file_contents ≫= parse_text.

End ParseMap.

(** ** Python floats: IEEE binary64 *)

Module Float.

Definition prec : Z := 53.
Definition emax : Z := 1024.

Definition add := SFadd prec emax.
Definition sub := SFsub prec emax.
Definition mul := SFmul prec emax.
Definition ltb := SFltb.
Definition eqb := SFeqb.

(** The float nearest to [m * 10 ^ e] (ties to even), with the sign [neg]
    when [m = 0]; what the correctly rounded string conversion of CPython
    returns, infinities on overflow included. *)
Definition of_decimal (neg : bool) (m : Z) (e : Z) : spec_float :=
  match m with
  | Z0 => S754_zero neg
  | _ =>
    if (0 <=? e)%Z then binary_normalize prec emax ((if neg then - m else m) * 10 ^ e)%Z 0 neg
    else
      let '(q, e', l) := SFdiv_core_binary prec emax m 0 (10 ^ (- e))%Z 0 in
      binary_round_aux prec emax neg q e' l
  end.

(** [float(n)] for a Python int: the nearest binary64, OverflowError
    ([None]) when that is not finite. *)
Definition of_int (n : Z) : option spec_float :=
  match binary_normalize prec emax n 0 false with
  | S754_infinity _ | S754_nan => None
  | x => Some x
  end.

(** The float of an integer literal such as [5.0] or [-10.0]. *)
Definition of_Z (n : Z) : spec_float := binary_normalize prec emax n 0 false.

Definition is_finite (x : spec_float) : bool :=
  match x with
  | S754_zero _ | S754_finite _ _ _ => true
  | _ => false
  end.

Definition is_zero (x : spec_float) : bool :=
  match x with
  | S754_zero _ => true
  | _ => false
  end.

Definition ch (a : ascii) : N := N_of_ascii a.

Definition is_digit (c : N) : bool := in_range 0x30 0x39 c.

(** Py_ISSPACE: space, \t, \n, \v, \f, \r. *)
Definition is_space (c : N) : bool := (c =? 0x20) || in_range 0x09 0x0D c.

(** Py_UNICODE_ISSPACE outside ASCII. *)
Definition is_unicode_space (c : N) : bool :=
  (c =? 0x85) || (c =? 0xA0) || (c =? 0x1680) || in_range 0x2000 0x200A c ||
  (c =? 0x2028) || (c =? 0x2029) || (c =? 0x202F) || (c =? 0x205F) || (c =? 0x3000).

(** The zeros of the decimal digits outside ASCII (category Nd of Unicode
    14.0.0, the table of CPython 3.11); each starts a run of ten digits. *)
Definition nd_zeros : list N :=
  [0x660; 0x6f0; 0x7c0; 0x966; 0x9e6; 0xa66; 0xae6; 0xb66; 0xbe6; 0xc66; 0xce6;
   0xd66; 0xde6; 0xe50; 0xed0; 0xf20; 0x1040; 0x1090; 0x17e0; 0x1810; 0x1946;
   0x19d0; 0x1a80; 0x1a90; 0x1b50; 0x1bb0; 0x1c40; 0x1c50; 0xa620; 0xa8d0;
   0xa900; 0xa9d0; 0xa9f0; 0xaa50; 0xabf0; 0xff10; 0x104a0; 0x10d30; 0x11066;
   0x110f0; 0x11136; 0x111d0; 0x112f0; 0x11450; 0x114d0; 0x11650; 0x116c0;
   0x11730; 0x118e0; 0x11950; 0x11c50; 0x11d50; 0x11da0; 0x16a60; 0x16ac0;
   0x16b50; 0x1d7ce; 0x1d7d8; 0x1d7e2; 0x1d7ec; 0x1d7f6; 0x1e140; 0x1e2f0;
   0x1e950; 0x1fbf0].

(** Py_UNICODE_TODECIMAL outside ASCII. *)
Definition todecimal (c : N) : option N :=
  (fun z => c - z) <$> find (fun z => in_range z (z + 9) c) nd_zeros.

(** _PyUnicode_TransformDecimalAndSpaceToASCII: white space becomes a
    space, a decimal digit its ASCII digit; at any other character outside
    ASCII the output ends with a question mark. *)
Fixpoint to_ascii (s : str) : str :=
  match s with
  | [] => []
  | c :: s' =>
    if c <? 127 then c :: to_ascii s'
    else if is_unicode_space c then 0x20 :: to_ascii s'
    else match todecimal c with
         | Some d => (0x30 + d) :: to_ascii s'
         | None => [ch "?"]
         end
  end.

(** _Py_string_to_number_with_underscores: an underscore stands between
    two digits, and is dropped. [prev] is the previous character. *)
Fixpoint drop_underscores (prev : N) (s : str) : option str :=
  match s with
  | [] => if prev =? ch "_" then None else Some []
  | c :: s' =>
    if c =? ch "_" then
      if is_digit prev then drop_underscores c s' else None
    else if (prev =? ch "_") && negb (is_digit c) then None
    else cons c <$> drop_underscores c s'
  end.

Fixpoint lstrip (s : str) : str :=
  match s with
  | c :: s' => if is_space c then lstrip s' else s
  | [] => []
  end.

Definition strip (s : str) : str := rev (lstrip (rev (lstrip s))).

Definition sign (s : str) : bool * str :=
  match s with
  | c :: s' =>
    if c =? ch "-" then (true, s') else if c =? ch "+" then (false, s') else (false, s)
  | [] => (false, [])
  end.

Definition lower (c : N) : N := if in_range 0x41 0x5A c then c + 32 else c.

(** The leading digits of [s], most significant first, and what follows. *)
Fixpoint digits (s : str) : list Z * str :=
  match s with
  | c :: s' =>
    if is_digit c then let '(ds, r) := digits s' in (Z.of_N (c - 0x30) :: ds, r)
    else ([], s)
  | [] => ([], [])
  end.

Definition number (ds : list Z) : Z := fold_left (fun n d => 10 * n + d)%Z ds 0%Z.

(** An exponent part: e or E, an optional sign, at least one digit, and
    nothing after it. *)
Definition exponent (s : str) : option Z :=
  match s with
  | [] => Some 0%Z
  | c :: s' =>
    if lower c =? ch "e" then
      let '(neg, s'') := sign s' in
      match digits s'' with
      | ([], _) | (_, _ :: _) => None
      | (ds, []) => Some (if neg then - number ds else number ds)%Z
      end
    else None
  end.

(** The decimal numerals of _Py_dg_strtod: digits, an optional point and
    digits, at least one digit in all, an optional exponent. *)
Definition decimal (neg : bool) (s : str) : option spec_float :=
  let '(ip, r) := digits s in
  let '(fp, r') :=
    match r with
    | c :: r0 => if c =? ch "." then digits r0 else ([], r)
    | [] => ([], [])
    end in
  match ip ++ fp with
  | [] => None
  | ds => e ← exponent r'; Some (of_decimal neg (number ds) (e - Z.of_nat (length fp)))
  end.

(** _Py_parse_inf_or_nan, then _Py_dg_strtod. *)
Definition numeral (s : str) : option spec_float :=
  let '(neg, body) := sign s in
  let word := map lower body in
  if bool_decide (word = lit "inf") || bool_decide (word = lit "infinity")
  then Some (S754_infinity neg)
  else if bool_decide (word = lit "nan") then Some S754_nan
  else decimal neg body.

(** [float(s)] for a [str]; [None] is ValueError. *)
Definition py_float (s : str) : option spec_float :=
  s' ← drop_underscores 0 (to_ascii s);
  match strip s' with
  | [] => None
  | t => numeral t
  end.

End Float.

Abbreviation py_float := Float.py_float.

(** ** Facts on the text operations *)

Definition tag1 : str := lit "MMPLL, 1".
Definition tag2 : str := lit "MMPLL, 2".
Definition tag3 : str := lit "MMPLL, 3".

(** A line one of the three branches of [parse_line] takes. *)
Definition recognized (line : str) : bool :=
  startswith line tag1 || startswith line tag2 || startswith line tag3.

(** The last line of [lines] that starts with [tag]. *)
Definition last_tagged (tag : str) (lines : list str) : option str :=
  last (filter (fun l => startswith l tag) lines).

Lemma startswith_take s p : startswith s p = true -> take (length p) s = p.
Proof.
  revert s. induction p as [|a p IH]; intros [|c s]; simpl; try done.
  intros [Hc Hs]%andb_prop. apply N.eqb_eq in Hc. subst c. f_equal. by apply IH.
Qed.

Lemma tags_exclusive s p q :
  length p = length q -> p <> q -> startswith s p = true -> startswith s q = false.
Proof.
  intros Hlen Hne Hp. destruct (startswith s q) eqn:Hq; [|done].
  apply startswith_take in Hp, Hq. rewrite Hlen in Hp. congruence.
Qed.

Lemma last_tagged_snoc tag lines x :
  last_tagged tag (lines ++ [x]) =
  if startswith x tag then Some x else last_tagged tag lines.
Proof.
  unfold last_tagged. rewrite filter_app, filter_cons, filter_nil.
  destruct (startswith x tag) eqn:Hx.
  - rewrite decide_True by (by apply Is_true_true). apply last_snoc.
  - rewrite decide_False by (by apply Is_true_false). by rewrite app_nil_r.
Qed.

Lemma cons_line_app c ls ls' : ls <> [] -> cons_line c (ls ++ ls') = cons_line c ls ++ ls'.
Proof. by destruct ls. Qed.

Lemma splitlines_nonempty c s : splitlines (c :: s) <> [].
Proof.
  simpl. destruct (is_linebreak c).
  - destruct s as [|c' s']; [done|]. by destruct (_ && _).
  - by destruct (splitlines s).
Qed.

(** A line without line boundary, closed by \n, is one item of
    [splitlines], and what follows is split on its own. *)
Lemma splitlines_line line rest :
  forallb (fun c => negb (is_linebreak c)) line = true ->
  splitlines (line ++ LF :: rest) = line :: splitlines rest.
Proof.
  induction line as [|c line IH]; intros Hl.
  - by destruct rest.
  - simpl in Hl. apply andb_prop in Hl as [Hc Hl].
    cbn [app splitlines]. destruct (is_linebreak c); [done|].
    by rewrite IH.
Qed.

(** A text that ends with \n closes its last line: a text appended to it
    adds its own lines. *)
Lemma splitlines_app_LF pre post :
  splitlines ((pre ++ [LF]) ++ post) = splitlines (pre ++ [LF]) ++ splitlines post.
Proof.
  induction pre as [pre IH] using (induction_ltof1 _ (@length N)).
  unfold ltof in IH. destruct pre as [|c pre].
  - by destruct post.
  - cbn [app splitlines]. destruct (is_linebreak c) eqn:Hc.
    + destruct pre as [|c' pre].
      * cbn [app]. destruct (_ && _); [by destruct post|].
        cbn [app]. f_equal. apply (IH []). simpl; lia.
      * cbn [app]. destruct (_ && _); cbn [app]; f_equal.
        -- apply IH. simpl; lia.
        -- apply (IH (c' :: pre)). simpl; lia.
    + rewrite (IH pre) by (simpl; lia).
      apply cons_line_app. destruct pre; apply splitlines_nonempty.
Qed.

(** ** Facts on the parser *)

Section ParseMapFacts.

Context {F : Type}.
Variable float : str -> option F.

(** Every recognized line of [lines] has two float fields at positions 2
    and 3. *)
Definition well_formed (lines : list str) : Prop :=
  Forall (fun l => recognized l = true -> is_Some (fields float l)) lines.

(** The two values [fields] reads on the last line that starts with [tag]. *)
Definition last_fields (tag : str) (lines : list str) : option (F * F) :=
  last_tagged tag lines ≫= fields float.

Lemma recognized_false line :
  recognized line = false ->
  startswith line tag1 = false /\ startswith line tag2 = false /\
  startswith line tag3 = false.
Proof.
  unfold recognized. intros H.
  apply orb_false_elim in H as [H H3]. apply orb_false_elim in H as [H1 H2]. done.
Qed.

Lemma parse_line_unrecognized coords line :
  recognized line = false -> parse_line float coords line = Some coords.
Proof.
  intros (H1 & H2 & H3)%recognized_false. unfold parse_line.
  fold tag1 tag2 tag3. by rewrite H1, H2, H3.
Qed.

Lemma parse_lines_app coords l1 l2 :
  parse_lines float coords (l1 ++ l2) =
  parse_lines float coords l1 ≫= fun coords' => parse_lines float coords' l2.
Proof.
  revert coords. induction l1 as [|x l1 IH]; intros coords; simpl; [done|].
  destruct (parse_line float coords x); simpl; [apply IH|done].
Qed.

Lemma parse_lines_drop_line coords before line after :
  recognized line = false ->
  parse_lines float coords (before ++ line :: after) =
  parse_lines float coords (before ++ after).
Proof.
  intros Hl. rewrite !parse_lines_app.
  destruct (parse_lines float coords before) as [c|]; simpl; [|done].
  by rewrite parse_line_unrecognized.
Qed.

(** Only the recognized lines count. *)
Lemma parse_lines_filter coords lines :
  parse_lines float coords lines =
  parse_lines float coords (filter (fun l => recognized l) lines).
Proof.
  revert coords. induction lines as [|x lines IH]; intros coords; [done|].
  rewrite filter_cons. destruct (recognized x) eqn:Hx.
  - rewrite decide_True by (by apply Is_true_true). simpl.
    destruct (parse_line float coords x); simpl; [apply IH|done].
  - rewrite decide_False by (by apply Is_true_false). simpl.
    rewrite parse_line_unrecognized by done. apply IH.
Qed.

(** A line that does not start with a tag leaves the keys of that tag as
    they are. *)
Lemma parse_line_frame coords coords' line :
  parse_line float coords line = Some coords' ->
  (startswith line tag1 = false ->
     coords' !! "minx" = coords !! "minx" /\ coords' !! "maxy" = coords !! "maxy") /\
  (startswith line tag2 = false -> coords' !! "maxx" = coords !! "maxx") /\
  (startswith line tag3 = false -> coords' !! "miny" = coords !! "miny").
Proof.
  unfold parse_line. fold tag1 tag2 tag3. intros H.
  destruct (startswith line tag1) eqn:H1;
    [|destruct (startswith line tag2) eqn:H2;
      [|destruct (startswith line tag3) eqn:H3]];
    try (destruct (fields float line) as [[a b]|]; simpl in H; [|done]);
    injection H as <-; (split; [|split]); intros; try done;
    by rewrite ?lookup_insert_ne.
Qed.

Lemma parse_lines_frame coords coords' lines :
  parse_lines float coords lines = Some coords' ->
  (Forall (fun l => startswith l tag1 = false) lines ->
     coords' !! "minx" = coords !! "minx" /\ coords' !! "maxy" = coords !! "maxy") /\
  (Forall (fun l => startswith l tag2 = false) lines ->
     coords' !! "maxx" = coords !! "maxx") /\
  (Forall (fun l => startswith l tag3 = false) lines ->
     coords' !! "miny" = coords !! "miny").
Proof.
  revert coords. induction lines as [|x lines IH]; intros coords H; simpl in H.
  - by injection H as <-.
  - destruct (parse_line float coords x) as [c|] eqn:Hx; simpl in H; [|done].
    destruct (IH _ H) as (I1 & I2 & I3).
    destruct (parse_line_frame _ _ _ Hx) as (J1 & J2 & J3).
    split; [|split]; intros [Hh Ht]%Forall_cons.
    + destruct (I1 Ht), (J1 Hh). split; congruence.
    + rewrite (I2 Ht). by apply J2.
    + rewrite (I3 Ht). by apply J3.
Qed.

(** Without a line of one of the three kinds, the final lookup raises. *)
Lemma parse_text_missing text :
  Forall (fun l => startswith l tag1 = false) (splitlines text) \/
  Forall (fun l => startswith l tag2 = false) (splitlines text) \/
  Forall (fun l => startswith l tag3 = false) (splitlines text) ->
  parse_text float text = None.
Proof.
  intros H. unfold parse_text.
  destruct (parse_lines float ∅ (splitlines text)) as [c|] eqn:Hc; simpl; [|done].
  destruct (parse_lines_frame _ _ _ Hc) as (I1 & I2 & I3). unfold bounds_of.
  destruct H as [H|[H|H]].
  - destruct (I1 H) as [-> _]. by rewrite lookup_empty.
  - rewrite (I2 H), lookup_empty. by destruct (c !! "minx"), (c !! "miny").
  - rewrite (I3 H), lookup_empty. by destruct (c !! "minx").
Qed.

Lemma parse_lines_snoc coords lines x :
  parse_lines float coords (lines ++ [x]) =
  parse_lines float coords lines ≫= fun coords' => parse_line float coords' x.
Proof.
  rewrite parse_lines_app. destruct (parse_lines float coords lines) as [c|]; simpl; [|done].
  by destruct (parse_line float c x).
Qed.

(** The loop, on well-formed lines, ends with the dict of the last line of
    each kind. *)
Lemma parse_lines_last lines :
  well_formed lines ->
  exists coords,
    parse_lines float ∅ lines = Some coords /\
    coords !! "minx" = fst <$> last_fields tag1 lines /\
    coords !! "maxy" = snd <$> last_fields tag1 lines /\
    coords !! "maxx" = fst <$> last_fields tag2 lines /\
    coords !! "miny" = snd <$> last_fields tag3 lines.
Proof.
  unfold well_formed, last_fields.
  induction lines as [|x lines IH] using rev_ind; intros Hwf.
  - exists ∅. by rewrite !lookup_empty.
  - apply Forall_app in Hwf as [Hwf Hx]. rewrite Forall_singleton in Hx.
    destruct (IH Hwf) as (c & Hc & Kminx & Kmaxy & Kmaxx & Kminy).
    rewrite parse_lines_snoc, Hc, !last_tagged_snoc. simpl.
    unfold parse_line. fold tag1 tag2 tag3.
    destruct (startswith x tag1) eqn:H1;
      [|destruct (startswith x tag2) eqn:H2;
        [|destruct (startswith x tag3) eqn:H3]].
    + rewrite (tags_exclusive x tag1 tag2), (tags_exclusive x tag1 tag3) by done.
      assert (is_Some (fields float x)) as [[a b] Hf]
        by (apply Hx; unfold recognized; by rewrite ?H1, ?H2, ?H3).
      rewrite Hf. simpl. eexists; split; [done|].
      rewrite Hf. simpl. by rewrite lookup_insert_ne, !lookup_insert_eq, !lookup_insert_ne.
    + rewrite (tags_exclusive x tag2 tag3) by done.
      assert (is_Some (fields float x)) as [[a b] Hf]
        by (apply Hx; unfold recognized; by rewrite ?H1, ?H2, ?H3).
      rewrite Hf. simpl. eexists; split; [done|].
      rewrite Hf. simpl. by rewrite lookup_insert_eq, !lookup_insert_ne.
    + assert (is_Some (fields float x)) as [[a b] Hf]
        by (apply Hx; unfold recognized; by rewrite ?H1, ?H2, ?H3).
      rewrite Hf. simpl. eexists; split; [done|].
      rewrite Hf. simpl. by rewrite lookup_insert_eq, !lookup_insert_ne.
    + by exists c.
Qed.

(** What [parse_text] returns on well-formed lines of all three kinds. *)
Lemma parse_text_last text a1 b1 a2 b2 a3 b3 :
  well_formed (splitlines text) ->
  last_fields tag1 (splitlines text) = Some (a1, b1) ->
  last_fields tag2 (splitlines text) = Some (a2, b2) ->
  last_fields tag3 (splitlines text) = Some (a3, b3) ->
  parse_text float text = Some (a1, b3, a2, b1).
Proof.
  intros Hwf L1 L2 L3. unfold parse_text.
  destruct (parse_lines_last _ Hwf) as (c & -> & Kminx & Kmaxy & Kmaxx & Kminy).
  rewrite L1 in Kminx, Kmaxy. rewrite L2 in Kmaxx. rewrite L3 in Kminy.
  simpl in *. unfold bounds_of. by rewrite Kminx, Kminy, Kmaxx, Kmaxy.
Qed.

End ParseMapFacts.

(** ** The parser: scenario and properties *)

(** The calibration text of the scenario of the specification. *)
Definition scenario : list byte :=
  unlines ["MMPLL, 1, 1, -10.0, 20.0"; "MMPLL, 2, 1, 30.0, 5.0"; "MMPLL, 3, 1, 5.0, 5.0"].

(** The same corners in lines of four fields (tag, index, x, y). *)
Definition scenario4 : list byte :=
  unlines ["MMPLL, 1, -10.0, 20.0"; "MMPLL, 2, 30.0, 5.0"; "MMPLL, 3, 5.0, 5.0"].

(** Some line of the text starts with [tag]. *)
Definition has_line (tag : str) (text : str) : bool :=
  existsb (fun l => startswith l tag) (splitlines text).

Lemma has_line_false tag text :
  has_line tag text = false ->
  Forall (fun l => startswith l tag = false) (splitlines text).
Proof.
  unfold has_line. induction (splitlines text) as [|l ls IH]; simpl; [done|].
  intros [H1 H2]%orb_false_elim. constructor; [done|by apply IH].
Qed.

(** C1, as stated: on the scenario text [parse_map] does NOT return
    minx=-10.0, miny=5.0, maxx=30.0, maxy=20.0. *)
Lemma scenario_bounds_differ :
  parse_map py_float scenario <>
  Some (Float.of_Z (-10), Float.of_Z 5, Float.of_Z 30, Float.of_Z 20).
Proof. vm_compute. discriminate. Qed.

(** C1, amended: on the scenario text, whose lines have five fields,
    [parse_map] reads the fields at 0-indexed positions 2 and 3, the "1"
    after the index and the first coordinate, and returns minx=1.0,
    miny=5.0, maxx=1.0, maxy=-10.0; the bounds minx=-10.0, miny=5.0,
    maxx=30.0, maxy=20.0 are what it returns for the four-field lines
    "MMPLL, 1, -10.0, 20.0", "MMPLL, 2, 30.0, 5.0", "MMPLL, 3, 5.0, 5.0". *)
Theorem scenario_bounds :
  parse_map py_float scenario =
    Some (Float.of_Z 1, Float.of_Z 5, Float.of_Z 1, Float.of_Z (-10)) /\
  parse_map py_float scenario4 =
    Some (Float.of_Z (-10), Float.of_Z 5, Float.of_Z 30, Float.of_Z 20).
Proof. split; vm_compute; reflexivity. Qed.

(** What the claim calls a line of index [k], in the spec's words (a line
    of comma-separated fields, identified by the tag and an index): the first
    field is the tag MMPLL and the second, spaces apart, is [k]. The parser
    has no such test; it tests a prefix ([recognized]). *)
Definition index_line (k : string) (line : str) : bool :=
  match split COMMA line with
  | tag :: index :: _ =>
    bool_decide (tag = lit "MMPLL") && bool_decide (Float.strip index = lit k)
  | _ => false
  end.

(** Some line of the text is a line of index [k]. *)
Definition has_index_line (k : string) (text : str) : bool :=
  existsb (index_line k) (splitlines text).

(** C2, as stated, fails: the text below has no line of index 1 (its first
    line has index 10, the others 2 and 3), so one of the three line types
    is absent; yet [parse_map] returns bounds, those of [scenario4], since
    "MMPLL, 10" starts with "MMPLL, 1". *)
Lemma parse_map_index_10 :
  let contents :=
    unlines ["MMPLL, 10, -10.0, 20.0"; "MMPLL, 2, 30.0, 5.0"; "MMPLL, 3, 5.0, 5.0"] in
  (exists text, decode_utf8 contents = Some text /\
     has_index_line "1" text = false /\
     has_index_line "2" text = true /\ has_index_line "3" text = true) /\
  parse_map py_float contents =
    Some (Float.of_Z (-10), Float.of_Z 5, Float.of_Z 30, Float.of_Z 20).
Proof.
  split; [|vm_compute; reflexivity].
  eexists. split; [vm_compute; reflexivity|]. repeat split; vm_compute; reflexivity.
Qed.

(** C2, amended: a line type is present when some line starts with its
    prefix, "MMPLL, 1", "MMPLL, 2" or "MMPLL, 3". A calibration text in
    which, for one of the three, no line starts with the prefix makes
    [parse_map] fail: it returns [None], never a tuple, whatever the other
    lines hold. *)
Theorem parse_map_missing_line {F} (float : str -> option F) contents text :
  decode_utf8 contents = Some text ->
  has_line tag1 text && has_line tag2 text && has_line tag3 text = false ->
  parse_map float contents = None.
Proof.
  intros Hd H. unfold parse_map. rewrite Hd. simpl.
  apply parse_text_missing.
  apply andb_false_iff in H as [H|H]; [apply andb_false_iff in H as [H|H]|];
    auto using has_line_false.
Qed.

Lemma parse_map_missing_line_witness :
  parse_map py_float (unlines ["MMPLL, 1, -10.0, 20.0"; "MMPLL, 3, 5.0, 5.0"]) = None.
Proof.
  eapply parse_map_missing_line; [vm_compute; reflexivity|vm_compute; reflexivity].
Defined.

(** C9: a text with one more line than another, a line that starts with
    none of the three tags, wherever it stands, gets the same result from
    [parse_map] as the text without it; so such a line is never a cause of
    failure, and inserting or removing it changes nothing. *)
Theorem parse_map_ignores_line {F} (float : str -> option F)
    contents contents' text text' before line after :
  decode_utf8 contents = Some text ->
  decode_utf8 contents' = Some text' ->
  splitlines text = before ++ after ->
  splitlines text' = before ++ line :: after ->
  recognized line = false ->
  parse_map float contents' = parse_map float contents.
Proof.
  intros Hd Hd' Hs Hs' Hl. unfold parse_map, parse_text.
  rewrite Hd, Hd'. simpl. rewrite Hs, Hs'.
  by rewrite parse_lines_drop_line.
Qed.

Lemma parse_map_ignores_line_witness :
  parse_map py_float
    (unlines ["MMPLL, 1, -10.0, 20.0"; "; not a number"; "MMPLL, 2, 30.0, 5.0";
              "MMPLL, 3, 5.0, 5.0"]) =
  parse_map py_float scenario4.
Proof.
  eapply (parse_map_ignores_line py_float _ _ _ _
            [lit "MMPLL, 1, -10.0, 20.0"] (lit "; not a number")
            [lit "MMPLL, 2, 30.0, 5.0"; lit "MMPLL, 3, 5.0, 5.0"]);
    vm_compute; reflexivity.
Defined.

(** C10: when every line that starts with a tag has its two float fields,
    [parse_map] returns the values of the LAST line of each kind: minx and
    maxy from the last "MMPLL, 1" line, maxx from the last "MMPLL, 2" line,
    miny from the last "MMPLL, 3" line; earlier lines of the same kind are
    overwritten, and do not make the parse fail. *)
Theorem parse_map_last_line_wins {F} (float : str -> option F)
    contents text a1 b1 a2 b2 a3 b3 :
  decode_utf8 contents = Some text ->
  well_formed float (splitlines text) ->
  last_fields float tag1 (splitlines text) = Some (a1, b1) ->
  last_fields float tag2 (splitlines text) = Some (a2, b2) ->
  last_fields float tag3 (splitlines text) = Some (a3, b3) ->
  parse_map float contents = Some (a1, b3, a2, b1).
Proof.
  intros Hd Hwf L1 L2 L3. unfold parse_map. rewrite Hd. simpl.
  by eapply parse_text_last.
Qed.

(** Well-formedness of an explicit text, line by line. *)
Ltac well_formed_lines :=
  unfold well_formed;
  match goal with
  | |- Forall _ ?l => let l' := eval vm_compute in l in change l with l'
  end;
  repeat (apply Forall_cons; split; [intros _; vm_compute; eauto|]);
  constructor.

Lemma parse_map_last_line_wins_witness :
  parse_map py_float
    (unlines ["MMPLL, 1, 0.0, 0.0"; "MMPLL, 2, 30.0, 5.0"; "MMPLL, 1, -10.0, 20.0";
              "MMPLL, 3, 5.0, 5.0"]) =
  Some (Float.of_Z (-10), Float.of_Z 5, Float.of_Z 30, Float.of_Z 20).
Proof.
  eapply (parse_map_last_line_wins py_float _ _ _ _ _ (Float.of_Z 5) (Float.of_Z 5));
    [vm_compute; reflexivity| |vm_compute; reflexivity..].
  well_formed_lines.
Defined.

(** C5, as stated, fails: these three lines are well formed, and the
    bounds returned have minx=30 > maxx=-10 and miny=20 > maxy=5. *)
Lemma parse_map_unordered_bounds :
  exists minx miny maxx maxy,
    parse_map py_float
      (unlines ["MMPLL, 1, 30.0, 5.0"; "MMPLL, 2, -10.0, 5.0"; "MMPLL, 3, 5.0, 20.0"]) =
      Some (minx, miny, maxx, maxy) /\
    ~ (Float.ltb minx maxx = true /\ Float.ltb miny maxy = true).
Proof.
  exists (Float.of_Z 30), (Float.of_Z 20), (Float.of_Z (-10)), (Float.of_Z 5).
  split; [vm_compute; reflexivity|]. vm_compute. intros [? _]. discriminate.
Qed.

(** C5, amended: for a calibration text with lines of all three kinds and
    well-formed float fields, [parse_map] returns bounds, and they satisfy
    minx < maxx and miny < maxy when the values on the lines are so
    ordered: the x of the last "MMPLL, 1" line below the x of the last
    "MMPLL, 2" line, the y of the last "MMPLL, 3" line below the y of the
    last "MMPLL, 1" line. The parser itself checks no order. *)
Theorem parse_map_ordered_bounds contents text a1 b1 a2 b2 a3 b3 :
  decode_utf8 contents = Some text ->
  well_formed py_float (splitlines text) ->
  last_fields py_float tag1 (splitlines text) = Some (a1, b1) ->
  last_fields py_float tag2 (splitlines text) = Some (a2, b2) ->
  last_fields py_float tag3 (splitlines text) = Some (a3, b3) ->
  Float.ltb a1 a2 = true ->
  Float.ltb b3 b1 = true ->
  exists minx miny maxx maxy,
    parse_map py_float contents = Some (minx, miny, maxx, maxy) /\
    Float.ltb minx maxx = true /\ Float.ltb miny maxy = true.
Proof.
  intros Hd Hwf L1 L2 L3 Hx Hy. exists a1, b3, a2, b1. split; [|done].
  unfold parse_map. rewrite Hd. simpl. by eapply parse_text_last.
Qed.

Lemma parse_map_ordered_bounds_witness :
  exists minx miny maxx maxy,
    parse_map py_float scenario4 = Some (minx, miny, maxx, maxy) /\
    Float.ltb minx maxx = true /\ Float.ltb miny maxy = true.
Proof.
  eapply (parse_map_ordered_bounds _ _ (Float.of_Z (-10)) (Float.of_Z 20)
            (Float.of_Z 30) (Float.of_Z 5) (Float.of_Z 5) (Float.of_Z 5));
    [vm_compute; reflexivity| |vm_compute; reflexivity..].
  well_formed_lines.
Defined.

(** ** Exceptions *)

(** The exceptions the handlers of the script can see. [Failure] is an
    exception raised inside a library (PIL, rasterio, zipfile, the file
    system), with its message. *)
Inductive exn : Type :=
  | KeyError (key : string)
  | ZeroDivisionError
  | OverflowError
  | FileNotFoundError (path : nat)
  | Failure (msg : string).

#[global] Instance exn_eq_dec : EqDecision exn.
Proof. solve_decision. Defined.

#[global] Instance result_ret : MRet (sum exn) := fun _ x => inr x.
#[global] Instance result_bind : MBind (sum exn) := fun _ _ k r =>
  match r with
  | inl e => inl e
  | inr x => k x
  end.

(** ** The affine transform of a raster *)

(** The arithmetic [from_bounds] and [Affine] run on: the operators of
    Python floats. *)
Class Arith (R : Type) := {
  zero : R;
  one : R;
  add : R -> R -> R;
  sub : R -> R -> R;
  mul : R -> R -> R;
  div : R -> R -> R;
  is_zero : R -> bool;
  (** the conversion of a Python int operand, OverflowError when it is too
      large *)
  of_int : Z -> exn + R
}.

#[global] Instance binary64 : Arith spec_float := {|
  zero := S754_zero false;
  one := Float.of_Z 1;
  add := Float.add;
  sub := Float.sub;
  mul := Float.mul;
  div := SFdiv Float.prec Float.emax;
  is_zero := Float.is_zero;
  of_int n := match Float.of_int n with Some x => inr x | None => inl OverflowError end
|}.

Module Affine.

Section Ops.

Context {R : Type} `{Arith R}.

(** The first two rows of the 3x3 matrix | a b c | d e f | 0 0 1 |. *)
Record t : Type := Build { a : R; b : R; c : R; d : R; e : R; f : R }.

(** [Affine.translation(xoff, yoff)]. *)
Definition translation (xoff yoff : R) : t := Build one zero xoff zero one yoff.

(** [Affine.scale(sx, sy)]. *)
Definition scale (sx sy : R) : t := Build sx zero zero zero sy zero.

(** [self * other] for two transforms: the matrix product. *)
Definition compose (self other : t) : t :=
  Build (add (mul (a self) (a other)) (mul (b self) (d other)))
        (add (mul (a self) (b other)) (mul (b self) (e other)))
        (add (add (mul (a self) (c other)) (mul (b self) (f other))) (c self))
        (add (mul (d self) (a other)) (mul (e self) (d other)))
        (add (mul (d self) (b other)) (mul (e self) (e other)))
        (add (add (mul (d self) (c other)) (mul (e self) (f other))) (f self)).

(** [self * (vx, vy)] for a point:
    [(vx * sa + vy * sb + sc, vx * sd + vy * se + sf)]. *)
Definition apply (self : t) (vx vy : R) : R * R :=
  (add (add (mul vx (a self)) (mul vy (b self))) (c self),
   add (add (mul vx (d self)) (mul vy (e self))) (f self)).

(** The image of the pixel (col, row), two Python ints. *)
Definition pixel (self : t) (col row : Z) : exn + R * R :=
  vx ← of_int col; vy ← of_int row; mret (apply self vx vy).

End Ops.

Arguments t : clear implicits.

End Affine.

Section FromBounds.

Context {R : Type} `{Arith R}.

(** [x / n] for a Python int [n]: the int is converted first, a zero
    divisor raises. *)
Definition truediv (x : R) (n : Z) : exn + R :=
  y ← of_int n; if is_zero y then inl ZeroDivisionError else mret (div x y).

(** [rasterio.transform.from_bounds]:
    [Affine.translation(west, north) *
     Affine.scale((east - west) / width, (south - north) / height)]. *)
Definition from_bounds (west south east north : R) (width height : Z)
    : exn + Affine.t R :=
  sx ← truediv (sub east west) width;
  sy ← truediv (sub south north) height;
  mret (Affine.compose (Affine.translation west north) (Affine.scale sx sy)).

End FromBounds.

(** ** Facts on binary64 *)

Section FloatFacts.

Local Open Scope Z_scope.

Lemma digits2_pos_lower p : 2 ^ (Z.pos (digits2_pos p) - 1) <= Z.pos p.
Proof.
  induction p as [p IH|p IH|]; simpl digits2_pos; [| |simpl; lia];
    rewrite Pos2Z.inj_succ;
    replace (Z.succ (Z.pos (digits2_pos p)) - 1)
      with (Z.succ (Z.pos (digits2_pos p) - 1)) by lia;
    rewrite Z.pow_succ_r by lia; lia.
Qed.

Lemma digits2_pos_iter p k :
  digits2_pos (Pos.iter xO p k) = (digits2_pos p + k)%positive.
Proof.
  induction k as [|k IH] using Pos.peano_ind.
  - simpl. lia.
  - rewrite Pos.iter_succ. simpl. rewrite IH. lia.
Qed.

Lemma digits2_pos_small p : Z.pos p < 2 ^ 53 -> Z.pos (digits2_pos p) <= 53.
Proof.
  intros Hp. pose proof (digits2_pos_lower p) as Hl.
  destruct (Z_le_gt_dec (Z.pos (digits2_pos p)) 53) as [|Hd]; [done|].
  assert (2 ^ 53 <= 2 ^ (Z.pos (digits2_pos p) - 1)) by (apply Z.pow_le_mono_r; lia).
  lia.
Qed.

(** A mantissa of 53 bits with an exponent in range is kept as it is. *)
Lemma shr_fexp_exact m e :
  Z.pos (digits2_pos m) = 53 -> -1074 <= e ->
  shr_fexp 53 1024 (Z.pos m) e loc_Exact =
  ({| shr_m := Z.pos m; shr_r := false; shr_s := false |}, e).
Proof.
  intros Hd He. unfold shr_fexp, fexp, emin.
  cbn [Zdigits2 shr_record_of_loc]. rewrite Hd.
  replace (IntDef.Z.max (53 + e - 53) (3 - 1024 - 53) - e) with 0 by lia.
  reflexivity.
Qed.

Lemma binary_round_aux_exact s m e :
  Z.pos (digits2_pos m) = 53 -> -1074 <= e <= 971 ->
  binary_round_aux 53 1024 s (Z.pos m) e loc_Exact = S754_finite s m e.
Proof.
  intros Hd He. unfold binary_round_aux.
  rewrite shr_fexp_exact by lia. cbn [shr_m loc_of_shr_record round_nearest_even].
  rewrite shr_fexp_exact by lia. cbn [shr_m].
  destruct (Z.leb_spec e (1024 - 53)) as [|Hlt]; [done|lia].
Qed.

Lemma binary_round_small s p :
  Z.pos p < 2 ^ 53 ->
  exists m e, binary_round Float.prec Float.emax s p 0 = S754_finite s m e.
Proof.
  intros Hp. pose proof (digits2_pos_small p Hp) as Hd.
  unfold binary_round, shl_align, fexp, emin, Float.prec, Float.emax.
  replace (IntDef.Z.max (Z.pos (digits2_pos p) + 0 - 53) (3 - 1024 - 53) - 0)
    with (Z.pos (digits2_pos p) - 53) by lia.
  replace (IntDef.Z.max (Z.pos (digits2_pos p) + 0 - 53) (3 - 1024 - 53))
    with (Z.pos (digits2_pos p) - 53) by lia.
  destruct (Z.pos (digits2_pos p) - 53) as [|q|q] eqn:Hq; [|lia|].
  - rewrite (binary_round_aux_exact s p 0) by lia. eauto.
  - rewrite (binary_round_aux_exact s _ (Z.neg q)); [eauto| |lia].
    rewrite digits2_pos_iter. lia.
Qed.

(** A nonzero int below 2^53 in absolute value converts to a nonzero
    finite float. *)
Lemma of_int_small n :
  n <> 0 -> - 2 ^ 53 < n < 2 ^ 53 ->
  exists s m e, Float.of_int n = Some (S754_finite s m e).
Proof.
  intros Hn Hr. unfold Float.of_int, binary_normalize.
  destruct n as [|p|p]; [done| |].
  - destruct (binary_round_small false p) as (m & e & ->); [lia|eauto].
  - destruct (binary_round_small true p) as (m & e & ->); [lia|eauto].
Qed.

Lemma one_eq : Float.of_Z 1 = S754_finite false 4503599627370496 (-52).
Proof. reflexivity. Qed.

Lemma mul_zero_finite s y :
  Float.is_finite y = true -> exists s', Float.mul (S754_zero s) y = S754_zero s'.
Proof. destruct y; simpl; eauto; done. Qed.

Lemma mul_finite_zero s m e s0 :
  exists s', Float.mul (S754_finite s m e) (S754_zero s0) = S754_zero s'.
Proof. simpl. eauto. Qed.

Lemma add_zeros s1 s2 : exists s, Float.add (S754_zero s1) (S754_zero s2) = S754_zero s.
Proof. destruct s1, s2; simpl; eauto. Qed.

Lemma is_finite_add_zero x s :
  Float.is_finite (Float.add x (S754_zero s)) = true -> Float.is_finite x = true.
Proof. by destruct x. Qed.

Lemma is_finite_add_zero_l x s :
  Float.is_finite (Float.add (S754_zero s) x) = true -> Float.is_finite x = true.
Proof. by destruct x. Qed.

Lemma is_finite_mul_one y :
  Float.is_finite (Float.mul (Float.of_Z 1) y) = true -> Float.is_finite y = true.
Proof. rewrite one_eq. by destruct y. Qed.

Lemma eqb_refl x : x <> S754_nan -> Float.eqb x x = true.
Proof.
  destruct x as [s|s| |s m e]; intros Hx; try done; try by destruct s.
  unfold Float.eqb, SFeqb, SFcompare.
  rewrite Z.compare_refl, Pos.compare_cont_refl. by destruct s.
Qed.

(** Adding zeros on the left leaves a float equal to itself. *)
Lemma eqb_add_zeros s1 s2 x :
  x <> S754_nan ->
  Float.eqb (Float.add (S754_zero s1) (Float.add (S754_zero s2) x)) x = true.
Proof.
  intros Hx. destruct x as [s|s| |s m e]; try done.
  - by destruct s1, s2, s.
  - by destruct s.
  - by apply eqb_refl.
Qed.

Lemma ltb_not_nan x y : Float.ltb x y = true -> x <> S754_nan /\ y <> S754_nan.
Proof. by destruct x, y. Qed.

End FloatFacts.

(** ** Rounding to binary64, by value *)

Section Rounding.

Local Open Scope R_scope.

(** [2 ^ e] as a real. *)
Definition bpow (e : Z) : R := powerRZ 2 e.

Lemma bpow_pos e : 0 < bpow e.
Proof. apply powerRZ_lt. lra. Qed.

Lemma bpow_add a b : bpow (a + b) = bpow a * bpow b.
Proof. apply powerRZ_add. lra. Qed.

Lemma bpow_0 : bpow 0 = 1.
Proof. reflexivity. Qed.

Lemma bpow_1 : bpow 1 = 2.
Proof. unfold bpow. simpl. lra. Qed.

Lemma bpow_opp a : bpow (- a) = / bpow a.
Proof. apply powerRZ_neg'. Qed.

Lemma bpow_IZR e : (0 <= e)%Z -> bpow e = IZR (2 ^ e).
Proof.
  intros He. unfold bpow. rewrite <- (Z2Nat.id e) at 1 by done.
  rewrite <- pow_powerRZ. rewrite <- (Z2Nat.id e) at 2 by done.
  by rewrite pow_IZR.
Qed.

Lemma bpow_ge_1 e : (0 <= e)%Z -> 1 <= bpow e.
Proof.
  intros He. rewrite bpow_IZR by done. apply IZR_le.
  pose proof (Z.pow_pos_nonneg 2 e). lia.
Qed.

Lemma bpow_le a b : (a <= b)%Z -> bpow a <= bpow b.
Proof.
  intros H. replace b with (a + (b - a))%Z by lia. rewrite bpow_add.
  pose proof (bpow_pos a). pose proof (bpow_ge_1 (b - a) ltac:(lia)). nra.
Qed.

Lemma bpow_max a b : bpow (Z.max a b) <= bpow a + bpow b.
Proof.
  pose proof (bpow_pos a). pose proof (bpow_pos b).
  destruct (Z.max_spec a b) as [[_ ->]|[_ ->]]; lra.
Qed.

Lemma Rabs_le_inv a b : Rabs a <= b -> - b <= a <= b.
Proof. unfold Rabs. destruct (Rcase_abs a); lra. Qed.

(** *** Locations

    [loc_ok m v l]: the real [v] lies in [[m, m + 1)] where the location [l]
    says: at [m], below, at or above the middle. *)

Definition loc_ok (m : Z) (v : R) (l : location) : Prop :=
  match l with
  | loc_Exact => v = IZR m
  | loc_Inexact Lt => IZR m < v < IZR m + / 2
  | loc_Inexact Eq => v = IZR m + / 2
  | loc_Inexact Gt => IZR m + / 2 < v < IZR m + 1
  end.

(** A shift record stands for [v]: its mantissa and its two sticky bits
    locate [v]. *)
Definition rec_ok (r : shr_record) (v : R) : Prop :=
  (0 <= shr_m r)%Z /\ loc_ok (shr_m r) v (loc_of_shr_record r).

Lemma loc_ok_bounds m v l : loc_ok m v l -> IZR m <= v < IZR m + 1.
Proof. destruct l as [|[]]; simpl; lra. Qed.

Lemma rec_of_loc m l :
  shr_m (shr_record_of_loc m l) = m /\
  loc_of_shr_record (shr_record_of_loc m l) = l.
Proof. by destruct l as [|[]]. Qed.

Lemma IZR_xI p : IZR (Z.pos p~1) = 2 * IZR (Z.pos p) + 1.
Proof. rewrite Pos2Z.inj_xI, plus_IZR, mult_IZR. lra. Qed.

Lemma IZR_xO p : IZR (Z.pos p~0) = 2 * IZR (Z.pos p).
Proof. rewrite Pos2Z.inj_xO, mult_IZR. lra. Qed.

(** One shift to the right halves the real located. *)
Lemma shr_1_ok r v : rec_ok r v -> rec_ok (shr_1 r) (v / 2).
Proof.
  destruct r as [m r s]. unfold rec_ok. intros [Hm Hl].
  destruct m as [|[p|p|]|p]; [| | | |done];
    cbn [shr_m shr_r shr_s loc_of_shr_record shr_1] in *;
    pose proof (IZR_xI p) as HI || idtac; pose proof (IZR_xO p) as HO || idtac;
    destruct r, s; cbn [orb loc_of_shr_record shr_m loc_ok] in *;
    (split; [lia|]); lra.
Qed.

(** So [p] shifts divide it by [2 ^ p]. *)
Lemma iter_shr_ok p : forall r v,
  rec_ok r v -> rec_ok (SpecFloat.iter_pos shr_1 p r) (v / bpow (Z.pos p)).
Proof.
  induction p as [p IH|p IH|]; intros r v Hr; cbn [SpecFloat.iter_pos].
  - apply shr_1_ok in Hr. apply IH, IH in Hr.
    replace (v / bpow (Z.pos p~1)) with (v / 2 / bpow (Z.pos p) / bpow (Z.pos p)); [done|].
    rewrite Pos2Z.inj_xI. replace (2 * Z.pos p + 1)%Z with (Z.pos p + Z.pos p + 1)%Z by lia.
    rewrite !bpow_add, bpow_1. pose proof (bpow_pos (Z.pos p)). field. lra.
  - apply IH, IH in Hr.
    replace (v / bpow (Z.pos p~0)) with (v / bpow (Z.pos p) / bpow (Z.pos p)); [done|].
    rewrite Pos2Z.inj_xO. replace (2 * Z.pos p)%Z with (Z.pos p + Z.pos p)%Z by lia.
    rewrite !bpow_add. pose proof (bpow_pos (Z.pos p)). field. lra.
  - apply shr_1_ok in Hr. by rewrite bpow_1.
Qed.

(** Rounding to nearest, ties to even, moves by at most a half, and not at
    all from an exact location. *)
Lemma round_ok r v :
  rec_ok r v ->
  let m' := round_nearest_even (shr_m r) (loc_of_shr_record r) in
  (0 <= m')%Z /\ Rabs (IZR m' - v) <= / 2 /\
  (loc_of_shr_record r = loc_Exact -> m' = shr_m r).
Proof.
  intros [Hm Hl]. cbn zeta.
  destruct (loc_of_shr_record r) as [|[]]; simpl in *.
  - split; [done|]. split; [|done]. rewrite Hl, Rminus_diag. rewrite Rabs_R0. lra.
  - destruct (Z.even (shr_m r)); (split; [lia|]); (split; [|done]);
      rewrite ?plus_IZR; apply Rabs_le; lra.
  - split; [done|]. split; [|done]. apply Rabs_le; lra.
  - split; [lia|]. split; [|done]. rewrite plus_IZR. apply Rabs_le; lra.
Qed.

(** *** Rounding *)

Lemma bpow_digits m : (0 < m)%Z -> bpow (Zdigits2 m - 1) <= IZR m.
Proof.
  intros Hm. destruct m as [|p|p]; try done. cbn [Zdigits2].
  rewrite bpow_IZR by lia. apply IZR_le, digits2_pos_lower.
Qed.

(** The exponent the format gives a number: its unit in the last place is
    at most 2^-52 of the number, or the smallest subnormal. *)
Lemma bpow_fexp m e :
  (0 < m)%Z ->
  bpow (fexp 53 1024 (Zdigits2 m + e)) <= bpow (-52) * (IZR m * bpow e) + bpow (-1074).
Proof.
  intros Hm. unfold fexp, emin.
  etrans; [apply bpow_max|]. apply Rplus_le_compat; [|by apply bpow_le].
  replace (Zdigits2 m + e - 53)%Z with ((Zdigits2 m - 1) + e + (-52))%Z by lia.
  rewrite !bpow_add. pose proof (bpow_digits m Hm).
  pose proof (bpow_pos e). pose proof (bpow_pos (-52)).
  replace (bpow (-52) * (IZR m * bpow e)) with (IZR m * bpow e * bpow (-52)) by ring.
  apply Rmult_le_compat_r; [lra|]. apply Rmult_le_compat_r; lra.
Qed.

Lemma fexp_ge e : (-1074 <= fexp 53 1024 e)%Z.
Proof. unfold fexp, emin. lia. Qed.

(** [shr_fexp] shifts to that exponent and keeps the real located. *)
Lemma shr_fexp_ok m e l v :
  (0 <= m)%Z -> loc_ok m v l ->
  exists r e',
    shr_fexp 53 1024 m e l = (r, e') /\
    e' = Z.max e (fexp 53 1024 (Zdigits2 m + e)) /\
    rec_ok r (v * bpow e / bpow e') /\
    (e' = e -> r = shr_record_of_loc m l).
Proof.
  intros Hm Hl. unfold shr_fexp, shr.
  destruct (rec_of_loc m l) as [Em El].
  assert (rec_ok (shr_record_of_loc m l) v) as Hr by (unfold rec_ok; by rewrite Em, El).
  pose proof (bpow_pos e) as He.
  destruct (fexp 53 1024 (Zdigits2 m + e) - e)%Z as [|p|p] eqn:Hn.
  - eexists _, _. split; [reflexivity|]. split; [lia|]. split; [|done].
    replace (v * bpow e / bpow e) with v by (field; lra). done.
  - eexists _, _. split; [reflexivity|]. split; [lia|]. split; [|lia].
    replace (v * bpow e / bpow (e + Z.pos p)) with (v / bpow (Z.pos p)).
    + by apply iter_shr_ok.
    + rewrite bpow_add. pose proof (bpow_pos (Z.pos p)). field. lra.
  - eexists _, _. split; [reflexivity|]. split; [lia|]. split; [|done].
    replace (v * bpow e / bpow e) with v by (field; lra). done.
Qed.

(** [binary_round_aux] on a real located at [mx * 2 ^ ex]: the result is a
    zero, a finite float or an infinity, of mantissa [m3] and exponent [e3]
    within the error bound of the real, and equal to it when there is
    nothing to shift. *)
Lemma round_aux_spec sx mx ex lx v :
  (0 <= mx)%Z -> (mx = 0%Z -> (ex <= -1074)%Z) -> loc_ok mx v lx ->
  (lx <> loc_Exact -> (ex <= fexp 53 1024 (Zdigits2 mx + ex))%Z) ->
  exists m3 e3, (0 <= m3)%Z /\
    binary_round_aux 53 1024 sx mx ex lx =
      match m3 with
      | Z0 => S754_zero sx
      | Zpos m => if (e3 <=? 971)%Z then S754_finite sx m e3 else S754_infinity sx
      | Zneg _ => S754_nan
      end /\
    Rabs (IZR m3 * bpow e3 - v * bpow ex) <= bpow (-51) * (v * bpow ex) + bpow (-1073) /\
    (lx = loc_Exact -> (fexp 53 1024 (Zdigits2 mx + ex) <= ex)%Z ->
     IZR m3 * bpow e3 = v * bpow ex).
Proof.
  intros Hmx Hmx0 Hl Hinex.
  destruct (shr_fexp_ok mx ex lx v) as (r1 & e1 & E1 & He1 & Hr1 & Hsame1); [lia|done|].
  destruct (round_ok r1 _ Hr1) as (Hm2 & Herr2 & Hex2).
  set (m2 := round_nearest_even (shr_m r1) (loc_of_shr_record r1)) in *.
  destruct (shr_fexp_ok m2 e1 loc_Exact (IZR m2)) as (r3 & e3 & E3 & He3 & Hr3 & Hsame3);
    [done|done|].
  exists (shr_m r3), e3. split; [apply Hr3|]. split.
  { unfold binary_round_aux. rewrite E1. fold m2. rewrite E3. reflexivity. }
  pose proof (loc_ok_bounds _ _ _ Hl) as Hv.
  pose proof (bpow_pos ex) as Hbex. pose proof (bpow_pos e1) as Hbe1.
  pose proof (bpow_pos e3) as Hbe3. pose proof (bpow_pos (-1074)) as Hh.
  pose proof (bpow_pos (-52)) as Ha.
  assert (bpow (-52) <= 1) as Ha1.
  { rewrite <- bpow_0. apply bpow_le. lia. }
  assert (bpow (-51) = 2 * bpow (-52)) as E51.
  { replace (-51)%Z with (1 + -52)%Z by lia. by rewrite bpow_add, bpow_1. }
  assert (bpow (-1073) = 2 * bpow (-1074)) as E1073.
  { replace (-1073)%Z with (1 + -1074)%Z by lia. by rewrite bpow_add, bpow_1. }
  assert (0 <= IZR mx) as Hmx' by (apply IZR_le; lia).
  assert (0 <= v * bpow ex) as HV by nra.
  (* the error of the first rounding *)
  assert (Rabs (IZR m2 * bpow e1 - v * bpow ex) <= bpow e1 / 2) as HA.
  { replace (IZR m2 * bpow e1 - v * bpow ex)
      with ((IZR m2 - v * bpow ex / bpow e1) * bpow e1) by (field; lra).
    rewrite Rabs_mult, (Rabs_pos_eq (bpow e1)) by lra. nra. }
  (* the error of the final truncation *)
  assert (Rabs (IZR (shr_m r3) * bpow e3 - IZR m2 * bpow e1) <= bpow e3 /\
          (e3 = e1 -> shr_m r3 = m2)) as [HB HB0].
  { split.
    - destruct Hr3 as [_ [Hb1 Hb2]%loc_ok_bounds].
      assert (IZR m2 * bpow e1 / bpow e3 * bpow e3 = IZR m2 * bpow e1) as Eq
        by (field; lra).
      apply (Rmult_le_compat_r (bpow e3)) in Hb1; [|lra].
      apply (Rmult_lt_compat_r (bpow e3)) in Hb2; [|lra].
      rewrite Eq in Hb1, Hb2. apply Rabs_le. lra.
    - intros Heq. rewrite (Hsame3 Heq). apply rec_of_loc. }
  assert ((lx = loc_Exact /\ (fexp 53 1024 (Zdigits2 mx + ex) <= ex)%Z) \/
          e1 = fexp 53 1024 (Zdigits2 mx + ex)) as [[-> Hfe]|He1'].
  { destruct lx as [|c].
    - destruct (Z_le_gt_dec (fexp 53 1024 (Zdigits2 mx + ex)) ex); [by left|right; lia].
    - right. assert (ex <= fexp 53 1024 (Zdigits2 mx + ex))%Z by (by apply Hinex). lia. }
  - (* nothing to round *)
    assert (e1 = ex) as -> by lia.
    rewrite (Hsame1 eq_refl) in *. cbn [shr_record_of_loc shr_m loc_of_shr_record] in *.
    assert (m2 = mx) as Em2 by (by apply Hex2). rewrite Em2 in *.
    assert (e3 = ex) as -> by lia. rewrite (HB0 eq_refl).
    simpl in Hl. rewrite Hl. split; [|done].
    rewrite Rminus_diag, Rabs_R0. rewrite Hl in HV. rewrite E51, E1073. nra.
  - assert (lx = loc_Exact -> (fexp 53 1024 (Zdigits2 mx + ex) <= ex)%Z ->
            IZR (shr_m r3) * bpow e3 = v * bpow ex) as Hexact.
    { intros -> Hfe. assert (e1 = ex) as -> by lia.
      rewrite (Hsame1 eq_refl) in *. cbn [shr_record_of_loc shr_m loc_of_shr_record] in *.
      assert (m2 = mx) as Em2 by (by apply Hex2). rewrite Em2 in *.
      assert (e3 = ex) as -> by lia. rewrite (HB0 eq_refl). simpl in Hl. by rewrite Hl. }
    split; [|done].
    assert (bpow e1 <= bpow (-52) * (v * bpow ex) + bpow (-1074)) as HE1.
    { rewrite He1'. destruct (decide (mx = 0%Z)) as [E0|Hne].
      - rewrite E0. cbn [Zdigits2]. specialize (Hmx0 E0).
        replace (fexp 53 1024 (0 + ex)) with (-1074)%Z by (unfold fexp, emin; lia).
        nra.
      - etrans; [apply bpow_fexp; lia|].
        apply Rplus_le_compat_r, Rmult_le_compat_l; [lra|].
        apply Rmult_le_compat_r; lra. }
    assert (Rabs (IZR (shr_m r3) * bpow e3 - IZR m2 * bpow e1)
            <= bpow e1 / 2 + bpow (-52) * (v * bpow ex) + bpow (-1074)) as HB'.
    { destruct (decide (e3 = e1)) as [Heq|Hne].
      - rewrite (HB0 Heq), Heq, Rminus_diag, Rabs_R0. nra.
      - assert (0 < m2)%Z as Hm2'.
        { destruct (decide (m2 = 0%Z)) as [E0|]; [|lia]. rewrite E0 in He3.
          cbn [Zdigits2] in He3. pose proof (fexp_ge (Zdigits2 mx + ex)).
          unfold fexp, emin in *. lia. }
        assert (e3 = fexp 53 1024 (Zdigits2 m2 + e1)) as He3' by lia.
        etrans; [exact HB|]. rewrite He3'. etrans; [apply bpow_fexp; lia|].
        assert (IZR m2 * bpow e1 <= v * bpow ex + bpow e1 / 2) as Hm2V.
        { apply Rabs_le_inv in HA. lra. }
        assert (0 <= IZR m2 * bpow e1) as Hn.
        { apply IZR_le in Hm2. nra. }
        nra. }
    replace (IZR (shr_m r3) * bpow e3 - v * bpow ex)
      with ((IZR (shr_m r3) * bpow e3 - IZR m2 * bpow e1) +
            (IZR m2 * bpow e1 - v * bpow ex)) by lra.
    etrans; [apply Rabs_triang|]. rewrite E51, E1073. lra.
Qed.

(** *** The value of a float, and the error of an operation *)

(** The real a float stands for: [(-1) ^ s * m * 2 ^ e], and 0 for the
    zeros (infinities and NaN have no value; they are given 0). *)
Definition value (x : spec_float) : R :=
  match x with
  | S754_finite s m e => (if s then - IZR (Z.pos m) else IZR (Z.pos m)) * bpow e
  | _ => 0
  end.

(** The sign as a factor. *)
Definition sgn (s : bool) : R := if s then -1 else 1.

(** The bound on the error of one rounding of the real [V]: a relative
    part, 2^-51 of [V], and an absolute part for the subnormal range. *)
Definition err (V : R) : R := bpow (-51) * Rabs V + bpow (-1073).

Lemma err_pos V : 0 <= err V.
Proof.
  unfold err. pose proof (bpow_pos (-51)). pose proof (bpow_pos (-1073)).
  pose proof (Rabs_pos V). nra.
Qed.

Lemma value_finite s m e : value (S754_finite s m e) = sgn s * (IZR (Z.pos m) * bpow e).
Proof. destruct s; simpl; lra. Qed.

Lemma Rabs_sgn s a b : Rabs (sgn s * a - sgn s * b) = Rabs (a - b).
Proof.
  destruct s; simpl.
  - replace (-1 * a - -1 * b) with (- (a - b)) by lra. apply Rabs_Ropp.
  - f_equal. lra.
Qed.

(** What [binary_round_aux] returns, by value. *)
Lemma round_aux_value sx mx ex lx v :
  (0 <= mx)%Z -> (mx = 0%Z -> (ex <= -1074)%Z) -> loc_ok mx v lx ->
  (lx <> loc_Exact -> (ex <= fexp 53 1024 (Zdigits2 mx + ex))%Z) ->
  let r := binary_round_aux 53 1024 sx mx ex lx in
  (Float.is_finite r = true ->
     Rabs (value r - sgn sx * (v * bpow ex)) <= err (v * bpow ex) /\
     (lx = loc_Exact -> (fexp 53 1024 (Zdigits2 mx + ex) <= ex)%Z ->
      value r = sgn sx * (v * bpow ex))) /\
  (Float.is_finite r = false -> r = S754_infinity sx).
Proof.
  intros Hmx Hmx0 Hl Hin r.
  destruct (round_aux_spec sx mx ex lx v Hmx Hmx0 Hl Hin) as (m3 & e3 & Hm3 & Er & Herr & Hex).
  subst r. rewrite Er. clear Er.
  pose proof (loc_ok_bounds _ _ _ Hl) as Hv. pose proof (bpow_pos ex).
  assert (0 <= IZR mx) by (apply IZR_le; lia).
  assert (0 <= v * bpow ex) as HV by nra.
  unfold err. rewrite (Rabs_pos_eq _ HV).
  destruct m3 as [|m|m]; [| |lia].
  - split; [|done]. intros _. split.
    + simpl in *. rewrite Rmult_0_l in Herr.
      replace (0 - sgn sx * (v * bpow ex)) with (sgn sx * 0 - sgn sx * (v * bpow ex)) by lra.
      rewrite Rabs_sgn. done.
    + intros H1 H2. rewrite <- (Hex H1 H2). simpl. lra.
  - destruct (e3 <=? 971)%Z; [|done]. split; [|done]. intros _. split.
    + rewrite value_finite, Rabs_sgn. done.
    + intros H1 H2. rewrite value_finite, (Hex H1 H2). done.
Qed.

Lemma IZR_iter_xO m d : IZR (Z.pos (Pos.iter xO m d)) = IZR (Z.pos m) * bpow (Z.pos d).
Proof.
  induction d as [|d IH] using Pos.peano_ind.
  - change (Pos.iter xO m 1) with (xO m). rewrite IZR_xO, bpow_1. lra.
  - rewrite Pos.iter_succ, IZR_xO, IH, Pos2Z.inj_succ.
    replace (Z.succ (Z.pos d)) with (1 + Z.pos d)%Z by lia.
    rewrite bpow_add, bpow_1. lra.
Qed.

(** [shl_align] keeps the value, and the sum of digits and exponent. *)
Lemma shl_align_value mx ex ex' :
  let '(mz, ez) := shl_align mx ex ex' in
  IZR (Z.pos mz) * bpow ez = IZR (Z.pos mx) * bpow ex /\
  ez = Z.min ex ex' /\
  (Z.pos (digits2_pos mz) + ez = Z.pos (digits2_pos mx) + ex)%Z.
Proof.
  unfold shl_align. destruct (ex' - ex)%Z as [|d|d] eqn:Hd.
  - split; [done|]. split; lia.
  - split; [done|]. split; lia.
  - split; [|split; [lia|]].
    + rewrite IZR_iter_xO. replace ex with (Z.pos d + ex')%Z by lia.
      rewrite bpow_add. lra.
    + rewrite digits2_pos_iter. lia.
Qed.

(** [binary_round] and [binary_normalize], by value. *)
Lemma binary_round_value sx mx ex :
  let r := binary_round 53 1024 sx mx ex in
  (Float.is_finite r = true ->
     Rabs (value r - sgn sx * (IZR (Z.pos mx) * bpow ex)) <= err (IZR (Z.pos mx) * bpow ex) /\
     ((fexp 53 1024 (Z.pos (digits2_pos mx) + ex) <= ex)%Z ->
      value r = sgn sx * (IZR (Z.pos mx) * bpow ex))) /\
  (Float.is_finite r = false -> r = S754_infinity sx).
Proof.
  unfold binary_round.
  pose proof (shl_align_value mx ex (fexp 53 1024 (Z.pos (digits2_pos mx) + ex))) as Ha.
  destruct (shl_align mx ex _) as [mz ez]. destruct Ha as (Hv & Hez & Hd).
  destruct (round_aux_value sx (Z.pos mz) ez loc_Exact (IZR (Z.pos mz)))
    as [Hfin Hinf]; [lia|lia|done|done|].
  cbn zeta in *. rewrite Hv in *. split; [|done].
  intros Hf. destruct (Hfin Hf) as [Herr Hex]. split; [done|].
  intros Hle. apply Hex; [done|]. cbn [Zdigits2]. rewrite Hd. lia.
Qed.

Lemma binary_normalize_value m e sz :
  let r := binary_normalize 53 1024 m e sz in
  (Float.is_finite r = true ->
     Rabs (value r - IZR m * bpow e) <= err (IZR m * bpow e) /\
     ((fexp 53 1024 (Zdigits2 m + e) <= e)%Z -> value r = IZR m * bpow e)) /\
  r <> S754_nan.
Proof.
  unfold binary_normalize. destruct m as [|p|p].
  - split; [|done]. intros _. simpl. rewrite Rmult_0_l, Rminus_diag, Rabs_R0.
    split; [apply err_pos|done].
  - destruct (binary_round_value false p e) as [Hfin Hinf]. cbn zeta in *.
    unfold sgn in *. rewrite Rmult_1_l in Hfin. split; [exact Hfin|].
    destruct (Float.is_finite (binary_round 53 1024 false p e)) eqn:Hf.
    + intros E. by rewrite E in Hf.
    + by rewrite (Hinf eq_refl).
  - destruct (binary_round_value true p e) as [Hfin Hinf]. cbn zeta in *.
    unfold sgn in *.
    assert (IZR (Z.neg p) * bpow e = -1 * (IZR (Z.pos p) * bpow e)) as E.
    { change (Z.neg p) with (- Z.pos p)%Z. rewrite opp_IZR. lra. }
    assert (err (IZR (Z.neg p) * bpow e) = err (IZR (Z.pos p) * bpow e)) as E'.
    { unfold err. rewrite E. f_equal. f_equal.
      replace (-1 * (IZR (Z.pos p) * bpow e)) with (- (IZR (Z.pos p) * bpow e)) by lra.
      apply Rabs_Ropp. }
    rewrite E', E. split; [exact Hfin|].
    destruct (Float.is_finite (binary_round 53 1024 true p e)) eqn:Hf.
    + intros E2. by rewrite E2 in Hf.
    + by rewrite (Hinf eq_refl).
Qed.

Lemma IZR_cond_Zopp s z : IZR (cond_Zopp s z) = sgn s * IZR z.
Proof. destruct s; simpl; [rewrite opp_IZR|]; lra. Qed.

Lemma shl_align_fst mx ex ez :
  (ez <= ex)%Z ->
  IZR (Z.pos (fst (shl_align mx ex ez))) * bpow ez = IZR (Z.pos mx) * bpow ex.
Proof.
  intros Hle. pose proof (shl_align_value mx ex ez) as Ha.
  destruct (shl_align mx ex ez) as [mz ez']. destruct Ha as (Hv & Hez & _).
  simpl. replace ez with ez' by lia. done.
Qed.

Lemma err_abs V : err (Rabs V) = err V.
Proof. unfold err. by rewrite Rabs_Rabsolu. Qed.

(** A finite sum has finite operands, and is the sum of their values up to
    one rounding. Likewise for the difference and the product. *)
Lemma add_value x y :
  Float.is_finite (SFadd 53 1024 x y) = true ->
  Float.is_finite x = true /\ Float.is_finite y = true /\
  Rabs (value (SFadd 53 1024 x y) - (value x + value y)) <= err (value x + value y).
Proof.
  intros Hf.
  assert (Float.is_finite x = true /\ Float.is_finite y = true) as [Hx Hy].
  { destruct x as [[]|[]| |], y as [[]|[]| |];
      (done || (cbn [SFadd Float.is_finite] in Hf; discriminate)). }
  split; [done|]. split; [done|].
  destruct x as [sx|sx| |sx mx ex], y as [sy|sy| |sy my ey]; try discriminate.
  - destruct sx, sy; simpl; rewrite Rplus_0_l, Rminus_diag, Rabs_R0; apply err_pos.
  - cbn [SFadd]. rewrite (Rplus_0_l). rewrite Rminus_diag, Rabs_R0. apply err_pos.
  - cbn [SFadd]. rewrite (Rplus_0_r). rewrite Rminus_diag, Rabs_R0. apply err_pos.
  - cbn [SFadd] in *.
    destruct (binary_normalize_value
      (cond_Zopp sx (Z.pos (fst (shl_align mx ex (Z.min ex ey)))) +
       cond_Zopp sy (Z.pos (fst (shl_align my ey (Z.min ex ey)))))%Z
      (Z.min ex ey) false) as [Hfin _].
    cbn zeta in Hfin. destruct (Hfin Hf) as [Herr _].
    rewrite plus_IZR, !IZR_cond_Zopp, Rmult_plus_distr_r, !Rmult_assoc in Herr.
    rewrite !shl_align_fst in Herr by lia.
    by rewrite !value_finite.
Qed.

Lemma sub_value x y :
  Float.is_finite (SFsub 53 1024 x y) = true ->
  Float.is_finite x = true /\ Float.is_finite y = true /\
  Rabs (value (SFsub 53 1024 x y) - (value x - value y)) <= err (value x - value y).
Proof.
  intros Hf.
  assert (Float.is_finite x = true /\ Float.is_finite y = true) as [Hx Hy].
  { destruct x as [[]|[]| |], y as [[]|[]| |];
      (done || (cbn [SFsub Float.is_finite] in Hf; discriminate)). }
  split; [done|]. split; [done|].
  destruct x as [sx|sx| |sx mx ex], y as [sy|sy| |sy my ey]; try discriminate.
  - destruct sx, sy; simpl; rewrite Rminus_diag, Rminus_diag, Rabs_R0; apply err_pos.
  - cbn [SFsub]. rewrite !value_finite. cbn [value].
    replace (sgn (negb sy) * (IZR (Z.pos my) * bpow ey) - (0 - sgn sy * (IZR (Z.pos my) * bpow ey)))
      with 0 by (destruct sy; simpl; lra).
    rewrite Rabs_R0. apply err_pos.
  - cbn [SFsub]. cbn [value]. rewrite (Rminus_0_r). rewrite Rminus_diag, Rabs_R0. apply err_pos.
  - cbn [SFsub] in *.
    destruct (binary_normalize_value
      (cond_Zopp sx (Z.pos (fst (shl_align mx ex (Z.min ex ey)))) -
       cond_Zopp sy (Z.pos (fst (shl_align my ey (Z.min ex ey)))))%Z
      (Z.min ex ey) false) as [Hfin _].
    cbn zeta in Hfin. destruct (Hfin Hf) as [Herr _].
    rewrite minus_IZR, !IZR_cond_Zopp, Rmult_minus_distr_r, !Rmult_assoc in Herr.
    rewrite !shl_align_fst in Herr by lia.
    by rewrite !value_finite.
Qed.

Lemma sgn_xorb a b : sgn (xorb a b) = sgn a * sgn b.
Proof. destruct a, b; simpl; lra. Qed.

Lemma Rabs_sgn_mul s a : Rabs (sgn s * a) = Rabs a.
Proof.
  destruct s; simpl.
  - replace (-1 * a) with (- a) by lra. apply Rabs_Ropp.
  - f_equal. lra.
Qed.

Lemma err_sgn s V : err (sgn s * V) = err V.
Proof. unfold err. by rewrite Rabs_sgn_mul. Qed.

Lemma mul_value x y :
  Float.is_finite (SFmul 53 1024 x y) = true ->
  Float.is_finite x = true /\ Float.is_finite y = true /\
  Rabs (value (SFmul 53 1024 x y) - value x * value y) <= err (value x * value y).
Proof.
  intros Hf.
  assert (Float.is_finite x = true /\ Float.is_finite y = true) as [Hx Hy].
  { destruct x as [[]|[]| |], y as [[]|[]| |];
      (done || (cbn [SFmul Float.is_finite] in Hf; discriminate)). }
  split; [done|]. split; [done|].
  destruct x as [sx|sx| |sx mx ex], y as [sy|sy| |sy my ey]; try discriminate.
  - simpl. rewrite Rmult_0_l, Rminus_diag, Rabs_R0. apply err_pos.
  - cbn [SFmul value]. rewrite Rmult_0_l, Rminus_diag, Rabs_R0. apply err_pos.
  - cbn [SFmul value]. rewrite Rmult_0_r, Rminus_diag, Rabs_R0. apply err_pos.
  - cbn [SFmul] in *.
    destruct (round_aux_value (xorb sx sy) (Z.pos (mx * my)) (ex + ey) loc_Exact
                (IZR (Z.pos (mx * my)))) as [Hfin _]; [lia|lia|done|done|].
    cbn zeta in Hfin. destruct (Hfin Hf) as [Herr _].
    rewrite !value_finite.
    replace (sgn sx * (IZR (Z.pos mx) * bpow ex) * (sgn sy * (IZR (Z.pos my) * bpow ey)))
      with (sgn (xorb sx sy) * (IZR (Z.pos (mx * my)) * bpow (ex + ey))).
    + by rewrite err_sgn.
    + rewrite sgn_xorb, Pos2Z.inj_mul, mult_IZR, bpow_add. lra.
Qed.

(** *** Division *)

Lemma digits2_pos_upper p : (Z.pos p < 2 ^ Z.pos (digits2_pos p))%Z.
Proof.
  induction p as [p IH|p IH|]; simpl digits2_pos; [| |simpl; lia];
    rewrite Pos2Z.inj_succ, Z.pow_succ_r by lia; lia.
Qed.

(** The location of a quotient [q + r / m2] from its remainder. *)
Lemma new_location_ok m2 q r :
  (0 <= r < m2)%Z -> loc_ok q (IZR q + IZR r / IZR m2) (new_location m2 r).
Proof.
  intros Hr.
  assert (0 < IZR m2) as Hm by (apply IZR_lt; lia).
  assert (0 <= IZR r) as Hr0 by (apply IZR_le; lia).
  set (rho := IZR r / IZR m2).
  assert (IZR r = rho * IZR m2) as Erho by (unfold rho; field; lra).
  assert (r <> 0%Z -> 0 < rho) as Hpos.
  { intros Hne. assert (0 < IZR r) by (apply IZR_lt; lia).
    unfold rho. by apply Rdiv_lt_0_compat. }
  assert (forall c, (2 * r ?= m2)%Z = c ->
            match c with
            | Lt => rho < / 2 | Eq => rho = / 2 | Gt => / 2 < rho
            end) as Hcmp.
  { intros c Hc. destruct c.
    - apply Z.compare_eq in Hc. apply (f_equal IZR) in Hc. rewrite mult_IZR in Hc. nra.
    - apply Z.compare_lt_iff, IZR_lt in Hc. rewrite mult_IZR in Hc. nra.
    - apply Z.compare_gt_iff, IZR_lt in Hc. rewrite mult_IZR in Hc. nra. }
  assert (rho < 1) as Hlt1.
  { assert (IZR r < IZR m2) by (apply IZR_lt; lia). nra. }
  unfold new_location.
  destruct (Z.even m2) eqn:Hev; unfold new_location_even, new_location_odd;
    (destruct (r =? 0)%Z eqn:Hz;
     [apply Z.eqb_eq in Hz; assert (rho = 0) as -> by (unfold rho; rewrite Hz; lra);
      simpl; lra|]);
    apply Z.eqb_neq in Hz; specialize (Hpos Hz).
  - destruct (2 * r ?= m2)%Z eqn:Hc; specialize (Hcmp _ eq_refl); simpl in *; lra.
  - assert ((2 * r ?= m2)%Z <> Eq) as Hodd.
    { intros Hc%Z.compare_eq. rewrite <- Hc, Z.even_mul in Hev. done. }
    destruct (Z.compare_spec (2 * r + 1) m2) as [Hc1|Hc1|Hc1].
    + assert ((2 * r ?= m2)%Z = Lt) as Hc by (apply Z.compare_lt_iff; lia).
      specialize (Hcmp _ Hc). simpl in *. lra.
    + assert ((2 * r ?= m2)%Z = Lt) as Hc by (apply Z.compare_lt_iff; lia).
      specialize (Hcmp _ Hc). simpl in *. lra.
    + assert ((2 * r ?= m2)%Z = Gt) as Hc.
      { apply Z.compare_gt_iff. destruct (Z.compare_spec (2 * r) m2); [done|lia|lia]. }
      specialize (Hcmp _ Hc). simpl in *. lra.
Qed.

Lemma fexp_mono a b : (a <= b)%Z -> (fexp 53 1024 a <= fexp 53 1024 b)%Z.
Proof. unfold fexp, emin. lia. Qed.

(** [SFdiv_core_binary] returns the quotient located, at an exponent that
    leaves it at least the 53 bits of the format. *)
Lemma div_core_spec m1 e1 m2 e2 :
  exists q e' l,
    SFdiv_core_binary 53 1024 (Z.pos m1) e1 (Z.pos m2) e2 = (q, e', l) /\
    (0 <= q)%Z /\
    loc_ok q (IZR (Z.pos m1) * bpow e1 / (IZR (Z.pos m2) * bpow e2) / bpow e') l /\
    (q = 0%Z -> (e' <= -1074)%Z) /\
    (e' <= fexp 53 1024 (Zdigits2 q + e'))%Z.
Proof.
  unfold SFdiv_core_binary. cbn [Zdigits2].
  set (d1 := Z.pos (digits2_pos m1)). set (d2 := Z.pos (digits2_pos m2)).
  set (est := (d1 + e1 - (d2 + e2))%Z).
  set (e' := Z.min (fexp 53 1024 est) (e1 - e2)).
  set (s := (e1 - e2 - e')%Z).
  assert (0 <= s)%Z as Hs by lia.
  set (m' := match s with Z.pos _ => Z.shiftl (Z.pos m1) s | Z0 => Z.pos m1 | Z.neg _ => 0%Z end).
  assert (m' = Z.pos m1 * 2 ^ s)%Z as Em'.
  { unfold m'. destruct s as [|p|p] eqn:Es; [lia| |lia].
    by rewrite Z.shiftl_mul_pow2. }
  clearbody m'.
  pose proof (Z_div_mod m' (Z.pos m2) eq_refl) as Hdm.
  destruct (Z.div_eucl m' (Z.pos m2)) as [q r]. destruct Hdm as [Hdm Hr].
  assert (0 < 2 ^ s)%Z as H2s by (by apply Z.pow_pos_nonneg).
  assert (0 <= q)%Z as Hq by nia.
  pose proof (digits2_pos_lower m1) as Hl1. fold d1 in Hl1.
  pose proof (digits2_pos_upper m2) as Hu2. fold d2 in Hu2.
  assert (2 ^ (d1 + s - 1) <= m')%Z as Hlow.
  { replace (d1 + s - 1)%Z with ((d1 - 1) + s)%Z by lia.
    rewrite Z.pow_add_r by (unfold d1; lia). nia. }
  exists q, e', (new_location (Z.pos m2) r). split; [done|]. split; [done|].
  assert (q = 0%Z -> (e' <= -1074)%Z) as Hq0e.
  { intros ->.
    assert (d1 + s - 1 < d2)%Z.
    { apply (Z.pow_lt_mono_r_iff 2); [lia|unfold d2; lia|lia]. }
    unfold e', est, fexp, emin in *. lia. }
  split; [|split; [done|]].
  - replace (IZR (Z.pos m1) * bpow e1 / (IZR (Z.pos m2) * bpow e2) / bpow e')
      with (IZR q + IZR r / IZR (Z.pos m2)); [by apply new_location_ok|].
    assert (0 < IZR (Z.pos m2)) by (by apply IZR_lt).
    pose proof (bpow_pos e2). pose proof (bpow_pos e').
    assert (bpow e1 = bpow s * bpow e2 * bpow e') as ->.
    { rewrite <- !bpow_add. f_equal. lia. }
    assert (IZR (Z.pos m1) * bpow s = IZR (Z.pos m2) * IZR q + IZR r) as E.
    { rewrite (bpow_IZR s Hs), <- !mult_IZR, <- plus_IZR. f_equal. lia. }
    trans (IZR (Z.pos m1) * bpow s / IZR (Z.pos m2)); [rewrite E; field; lra|field; lra].
  - destruct (decide (q = 0%Z)) as [E0|Hq0].
    { specialize (Hq0e E0). rewrite E0. cbn [Zdigits2]. unfold fexp, emin. lia. }
    etrans; [apply Z.le_min_l|]. apply fexp_mono.
    destruct q as [|pq|pq]; [done| |lia]. cbn [Zdigits2].
    pose proof (digits2_pos_upper pq) as Huq.
    destruct (Z_lt_le_dec (d1 + s - d2 - 1) 0) as [Hk|Hk]; [unfold est; lia|].
    assert (2 ^ (d1 + s - d2 - 1) <= Z.pos pq)%Z as Hqk.
    { assert (2 ^ (d1 + s - 1) = 2 ^ (d1 + s - d2 - 1) * 2 ^ d2)%Z as E.
      { rewrite <- Z.pow_add_r by (unfold d2; lia). f_equal. lia. }
      assert (0 < 2 ^ (d1 + s - d2 - 1))%Z by (by apply Z.pow_pos_nonneg).
      nia. }
    assert (d1 + s - d2 - 1 < Z.pos (digits2_pos pq))%Z.
    { apply (Z.pow_lt_mono_r_iff 2); [lia|lia|lia]. }
    unfold est. lia.
Qed.

(** A finite quotient by a finite nonzero float has a finite dividend, and
    is the quotient of the values up to one rounding. *)
Lemma div_value x sy my ey :
  Float.is_finite (SFdiv 53 1024 x (S754_finite sy my ey)) = true ->
  Float.is_finite x = true /\
  Rabs (value (SFdiv 53 1024 x (S754_finite sy my ey)) - value x / value (S754_finite sy my ey))
    <= err (value x / value (S754_finite sy my ey)).
Proof.
  intros Hf. destruct x as [sx|sx| |sx mx ex]; try discriminate.
  { split; [done|]. cbn [SFdiv value]. unfold Rdiv. rewrite Rmult_0_l, Rminus_diag, Rabs_R0.
    apply err_pos. }
  split; [done|]. cbn [SFdiv] in *.
  destruct (div_core_spec mx ex my ey) as (q & e' & l & E & Hq & Hl & Hq0 & Hfe).
  rewrite E in *.
  destruct (round_aux_value (xorb sx sy) q e' l _ Hq Hq0 Hl (fun _ => Hfe)) as [Hfin _].
  cbn zeta in Hfin. destruct (Hfin Hf) as [Herr _].
  assert (0 < IZR (Z.pos my)) by (by apply IZR_lt).
  pose proof (bpow_pos ey). pose proof (bpow_pos e').
  assert (IZR (Z.pos mx) * bpow ex / (IZR (Z.pos my) * bpow ey) / bpow e' * bpow e'
          = IZR (Z.pos mx) * bpow ex / (IZR (Z.pos my) * bpow ey)) as Ev.
  { field. split; lra. }
  rewrite Ev in Herr. rewrite !value_finite.
  replace (sgn sx * (IZR (Z.pos mx) * bpow ex) / (sgn sy * (IZR (Z.pos my) * bpow ey)))
    with (sgn (xorb sx sy) * (IZR (Z.pos mx) * bpow ex / (IZR (Z.pos my) * bpow ey))).
  - by rewrite err_sgn.
  - rewrite sgn_xorb. destruct sx, sy; simpl; field; split; lra.
Qed.

End Rounding.

(** ** The transform builder *)

Section FromBoundsFacts.

Local Open Scope Z_scope.

Lemma truediv_zero (x : spec_float) : truediv x 0 = inl ZeroDivisionError.
Proof. reflexivity. Qed.

Lemma truediv_small (x : spec_float) n :
  n <> 0 -> - 2 ^ 53 < n < 2 ^ 53 -> exists q, truediv x n = inr q.
Proof.
  intros Hn Hr. destruct (of_int_small n Hn Hr) as (s & m & e & Hf).
  unfold truediv. cbn. rewrite Hf. cbn. eauto.
Qed.

(** With dimensions in range, [from_bounds] on floats raises exactly for a
    zero dimension, whatever the bounds. *)
Lemma from_bounds_result (west south east north : spec_float) width height :
  - 2 ^ 53 < width < 2 ^ 53 -> - 2 ^ 53 < height < 2 ^ 53 ->
  (width = 0 \/ height = 0 ->
     from_bounds west south east north width height = inl ZeroDivisionError) /\
  (width <> 0 -> height <> 0 ->
     exists t, from_bounds west south east north width height = inr t).
Proof.
  intros Hw Hh. unfold from_bounds. split.
  - intros [-> | ->]; [done|].
    destruct (Z.eq_dec width 0) as [->|Hne]; [done|].
    destruct (truediv_small (sub east west) width Hne Hw) as [q ->]. done.
  - intros Hw0 Hh0.
    destruct (truediv_small (sub east west) width Hw0 Hw) as [sx ->].
    destruct (truediv_small (sub south north) height Hh0 Hh) as [sy ->].
    cbn. eauto.
Qed.

(** The image of pixel (0, 0) under translation * scale, on floats. *)
Lemma origin_image (west north sx sy : spec_float) :
  let t := Affine.compose (Affine.translation west north) (Affine.scale sx sy) in
  Float.is_finite (Affine.a t) = true -> Float.is_finite (Affine.e t) = true ->
  west <> S754_nan -> north <> S754_nan ->
  exists x y, Affine.pixel t 0 0 = inr (x, y) /\
              Float.eqb x west = true /\ Float.eqb y north = true.
Proof.
  intros t Ha He Hwest Hnorth.
  assert (Float.is_finite sx = true) as Fsx
    by (apply is_finite_mul_one; eapply is_finite_add_zero; exact Ha).
  assert (Float.is_finite sy = true) as Fsy
    by (apply is_finite_mul_one; eapply is_finite_add_zero_l; exact He).
  eexists _, _. split; [reflexivity|]. subst t.
  cbn [Affine.apply Affine.compose Affine.translation Affine.scale
       Affine.a Affine.b Affine.c Affine.d Affine.e Affine.f
       add mul zero one binary64] in *.
  rewrite one_eq in *.
  destruct (mul_zero_finite false _ Ha) as [s1 ->].
  destruct (mul_zero_finite false _ He) as [s2 ->].
  destruct (mul_finite_zero false 4503599627370496 (-52) false) as [s3 E3].
  rewrite !E3.
  destruct (mul_zero_finite false sx Fsx) as [s4 ->].
  destruct (mul_zero_finite false sy Fsy) as [s5 ->].
  destruct (mul_zero_finite false (S754_zero false) eq_refl) as [s6 ->].
  destruct (add_zeros s3 s5) as [s7 ->]. destruct (add_zeros s4 s3) as [s8 ->].
  destruct (mul_zero_finite false (S754_zero s7) eq_refl) as [s9 ->].
  destruct (mul_zero_finite false (S754_zero s8) eq_refl) as [s10 ->].
  destruct (add_zeros s1 s9) as [s11 ->]. destruct (add_zeros s10 s2) as [s12 ->].
  destruct (add_zeros s3 s6) as [s13 ->]. destruct (add_zeros s6 s3) as [s14 ->].
  split; by apply eqb_add_zeros.
Qed.

End FromBoundsFacts.

(** ** The far corner, up to rounding *)

Section FarCorner.

Local Open Scope R_scope.

(** The errors of the operators of Python floats. *)
Lemma add_err x y :
  Float.is_finite (Float.add x y) = true ->
  Float.is_finite x = true /\ Float.is_finite y = true /\
  Rabs (value (Float.add x y) - (value x + value y)) <= err (value x + value y).
Proof. exact (add_value x y). Qed.

Lemma sub_err x y :
  Float.is_finite (Float.sub x y) = true ->
  Float.is_finite x = true /\ Float.is_finite y = true /\
  Rabs (value (Float.sub x y) - (value x - value y)) <= err (value x - value y).
Proof. exact (sub_value x y). Qed.

Lemma mul_err x y :
  Float.is_finite (Float.mul x y) = true ->
  Float.is_finite x = true /\ Float.is_finite y = true /\
  Rabs (value (Float.mul x y) - value x * value y) <= err (value x * value y).
Proof. exact (mul_value x y). Qed.

Lemma value_add_zero_r x s : value (Float.add x (S754_zero s)) = value x.
Proof. by destruct x as [[]|[]| |], s. Qed.

Lemma value_add_zero_l x s : value (Float.add (S754_zero s) x) = value x.
Proof. by destruct x as [[]|[]| |], s. Qed.

Lemma value_one : value (Float.of_Z 1) = 1.
Proof.
  rewrite one_eq. cbn [value]. change (-52)%Z with (- (52))%Z.
  rewrite (bpow_opp 52), (bpow_IZR 52) by lia.
  change (2 ^ 52)%Z with 4503599627370496%Z. field.
Qed.

(** The value of the float of a small int. *)
Lemma of_int_value n x :
  (- 2 ^ 53 < n < 2 ^ 53)%Z -> Float.of_int n = Some x ->
  Float.is_finite x = true /\ value x = IZR n.
Proof.
  intros Hn. unfold Float.of_int.
  destruct (binary_normalize_value n 0 false) as [Hfin _]. cbn zeta in Hfin.
  change (binary_normalize Float.prec Float.emax n 0 false)
    with (binary_normalize 53 1024 n 0 false).
  assert (fexp 53 1024 (Zdigits2 n + 0) <= 0)%Z as Hfe.
  { unfold fexp, emin. destruct n as [|p|p]; cbn [Zdigits2]; [lia| |].
    - pose proof (digits2_pos_small p). lia.
    - pose proof (digits2_pos_small p). lia. }
  destruct (binary_normalize 53 1024 n 0 false) as [s|s| |s m e] eqn:E;
    intros [= <-]; (split; [done|]); destruct (Hfin eq_refl) as [_ Hv];
    rewrite (Hv Hfe), bpow_0; lra.
Qed.

(** The accumulated error along one axis. *)

Lemma Rabs_bound a b c : Rabs (a - b) <= c -> Rabs a <= Rabs b + c.
Proof.
  intros H. replace a with (b + (a - b)) at 1 by lra.
  etrans; [apply Rabs_triang|]. lra.
Qed.

(** An error bound, scaled. *)
Lemma scale_err w a b rho eta :
  0 < w -> 0 <= rho ->
  Rabs (a - b) <= rho * Rabs b + eta ->
  Rabs (w * a - w * b) <= rho * Rabs (w * b) + w * eta.
Proof.
  intros Hw Hrho H.
  replace (w * a - w * b) with (w * (a - b)) by lra.
  rewrite !Rabs_mult, (Rabs_pos_eq w) by lra.
  apply (Rmult_le_compat_l w) in H; [|lra]. lra.
Qed.

(** Five roundings in a row: the difference [D] of the bounds, its
    quotient by the dimension (times the dimension: [A]), the product by
    one ([B]), the product [p] by the dimension and the sum [x] with the
    origin. *)
Lemma corner_chain (N X D A B p x Weta eta : R) :
  let u := / 2251799813685248 in
  0 <= eta <= Weta ->
  Rabs (D - (X - N)) <= u * Rabs (X - N) + eta ->
  Rabs (A - D) <= u * Rabs D + Weta ->
  Rabs (B - A) <= u * Rabs A + Weta ->
  Rabs (p - B) <= u * Rabs B + eta ->
  Rabs (x - (p + N)) <= u * Rabs (p + N) + eta ->
  Rabs (x - X) <= 8 * u * (Rabs N + Rabs X) + 8 * Weta.
Proof.
  intros u Heta H1 H2 H3 H4 H5. subst u.
  assert (Rabs (X - N) <= Rabs N + Rabs X) as HL.
  { unfold Rminus. etrans; [apply Rabs_triang|]. rewrite Rabs_Ropp. lra. }
  pose proof (Rabs_pos N). pose proof (Rabs_pos X). pose proof (Rabs_pos (X - N)).
  pose proof (Rabs_pos D). pose proof (Rabs_pos A). pose proof (Rabs_pos B).
  pose proof (Rabs_pos (p + N)).
  pose proof (Rabs_bound _ _ _ H1) as H1'.
  pose proof (Rabs_bound _ _ _ H2) as H2'.
  pose proof (Rabs_bound _ _ _ H3) as H3'.
  apply Rabs_le_inv in H1, H2, H3, H4.
  assert (Rabs (p + N) <= Rabs X + Rabs (p + N - X)) as K6.
  { replace (p + N) with (X + (p + N - X)) at 1 by lra. apply Rabs_triang. }
  assert (Rabs (p + N - X) <=
          
          (/ 2251799813685248 * Rabs B + eta) + (/ 2251799813685248 * Rabs A + Weta) +
          (/ 2251799813685248 * Rabs D + Weta) +
          (/ 2251799813685248 * Rabs (X - N) + eta)) as K7.
  { apply Rabs_le. lra. }
  apply Rabs_le_inv in H5.
  generalize dependent (Rabs (p + N - X)). generalize dependent (Rabs (p + N)).
  generalize dependent (Rabs B). generalize dependent (Rabs A).
  generalize dependent (Rabs D). generalize dependent (Rabs (X - N)).
  generalize dependent (Rabs N). generalize dependent (Rabs X).
  intros. apply Rabs_le. split; lra.
Qed.

Lemma bpow_m51 : bpow (-51) = / 2251799813685248.
Proof.
  change (-51)%Z with (- (51))%Z. rewrite (bpow_opp 51), (bpow_IZR 51) by lia.
  by change (2 ^ 51)%Z with 2251799813685248%Z.
Qed.

Lemma bpow_m48 : bpow (-48) = 8 * bpow (-51).
Proof.
  replace (-48)%Z with (3 + -51)%Z by lia. rewrite bpow_add, (bpow_IZR 3) by lia.
  change (2 ^ 3)%Z with 8%Z. lra.
Qed.

Lemma bpow_m1070 : bpow (-1070) = 8 * bpow (-1073).
Proof.
  replace (-1070)%Z with (3 + -1073)%Z by lia. rewrite bpow_add, (bpow_IZR 3) by lia.
  change (2 ^ 3)%Z with 8%Z. lra.
Qed.

(** One axis of the far corner: [lo + n * ((far - lo) / n)] in floats lies
    within the tolerance of [far]. *)
Lemma axis_bound (lo far : spec_float) (n : Z) sf mf ef (vp vx : R) :
  (1 <= n)%Z -> value (S754_finite sf mf ef) = IZR n ->
  let s1 := Float.mul (Float.of_Z 1)
              (SFdiv Float.prec Float.emax (Float.sub far lo) (S754_finite sf mf ef)) in
  Float.is_finite s1 = true ->
  Rabs (vp - IZR n * value s1) <= err (IZR n * value s1) ->
  Rabs (vx - (vp + value lo)) <= err (vp + value lo) ->
  Rabs (vx - value far)
    <= bpow (-48) * (Rabs (value lo) + Rabs (value far)) + IZR n * bpow (-1070).
Proof.
  intros Hn Hv s1 Hs1 H4 H5.
  destruct (mul_err _ _ Hs1) as (_ & Hs & H3).
  destruct (div_value _ _ _ _ Hs) as (HD & H2).
  destruct (sub_err _ _ HD) as (_ & _ & H1).
  fold s1 in H3. rewrite value_one, Rmult_1_l in H3. rewrite Hv in H2.
  assert (1 <= IZR n) as Hn1 by (by apply IZR_le).
  pose proof (bpow_pos (-1073)) as Heta.
  unfold err in *. rewrite bpow_m48, bpow_m1070. rewrite bpow_m51 in *.
  apply (scale_err (IZR n)) in H2; [|lra|lra].
  apply (scale_err (IZR n)) in H3; [|lra|lra].
  replace (IZR n * (value (Float.sub far lo) / IZR n))
    with (value (Float.sub far lo)) in H2 by (field; lra).
  pose proof (corner_chain (value lo) (value far) (value (Float.sub far lo))
                (IZR n * value (SFdiv Float.prec Float.emax (Float.sub far lo)
                                  (S754_finite sf mf ef)))
                (IZR n * value s1) vp vx
                (IZR n * bpow (-1073)) (bpow (-1073))) as Hc.
  cbn zeta in Hc. etrans; [apply Hc; [nra|done|done|done|done|done]|]. lra.
Qed.

(** The image of pixel (w, h) under the transform of [from_bounds], on
    floats: each coordinate that is finite is within the tolerance of the
    far corner. *)
Lemma far_corner_image (west south east north : spec_float) (w h : Z) :
  (0 < w < 2 ^ 53)%Z -> (0 < h < 2 ^ 53)%Z ->
  exists t x y,
    from_bounds west south east north w h = inr t /\
    Affine.pixel t w h = inr (x, y) /\
    (Float.is_finite x = true ->
       Rabs (value x - value east)
         <= bpow (-48) * (Rabs (value west) + Rabs (value east)) + IZR w * bpow (-1070)) /\
    (Float.is_finite y = true ->
       Rabs (value y - value south)
         <= bpow (-48) * (Rabs (value north) + Rabs (value south)) + IZR h * bpow (-1070)).
Proof.
  intros Hw Hh.
  destruct (of_int_small w) as (sw & mw & ew & Ew); [lia..|].
  destruct (of_int_small h) as (sh & mh & eh & Eh); [lia..|].
  destruct (of_int_value w _ ltac:(lia) Ew) as [_ Vw].
  destruct (of_int_value h _ ltac:(lia) Eh) as [_ Vh].
  unfold from_bounds, truediv, Affine.pixel.
  cbn [of_int binary64 is_zero div sub]. rewrite Ew, Eh.
  cbn -[Float.add Float.mul Float.sub SFdiv Float.of_Z bpow value Rabs].
  eexists _, _, _. split; [reflexivity|]. split; [reflexivity|].
  set (sx := SFdiv _ _ (Float.sub east west) _).
  set (sy := SFdiv _ _ (Float.sub south north) _).
  cbn [Affine.apply Affine.compose Affine.translation Affine.scale
       Affine.a Affine.b Affine.c Affine.d Affine.e Affine.f
       add mul zero one binary64].
  rewrite one_eq.
  destruct (mul_finite_zero false 4503599627370496 (-52) false) as [s3 E3].
  rewrite !E3.
  destruct (mul_zero_finite false (S754_zero false) eq_refl) as [s6 E6]. rewrite !E6.
  destruct (add_zeros s3 s6) as [s13 ->]. destruct (add_zeros s6 s3) as [s14 ->].
  rewrite <- one_eq. split.
  - intros Hx.
    destruct (add_err _ _ Hx) as (HU & _ & H5). rewrite value_add_zero_l in H5.
    destruct (add_err _ _ HU) as (HP & HQ & _).
    destruct (mul_err _ _ HQ) as (_ & Hb & _).
    destruct (add_err _ _ Hb) as (_ & Hz & _).
    destruct (mul_err _ _ Hz) as (_ & Hsy & _).
    destruct (mul_zero_finite false sy Hsy) as [s1 E1]. rewrite E1 in H5 |- *.
    destruct (add_zeros s3 s1) as [s2 E2]. rewrite E2 in H5 |- *.
    destruct (mul_finite_zero sh mh eh s2) as [s4 E4]. rewrite E4 in H5 |- *.
    rewrite value_add_zero_r in H5.
    destruct (mul_err _ _ HP) as (_ & Ha & H4). rewrite Vw, value_add_zero_r in H4.
    destruct (add_err _ _ Ha) as (Hs1 & _ & _).
    exact (axis_bound west east w sw mw ew _ _ ltac:(lia) Vw Hs1 H4 H5).
  - intros Hy.
    destruct (add_err _ _ Hy) as (HU & _ & H5). rewrite value_add_zero_l in H5.
    destruct (add_err _ _ HU) as (HP & HQ & _).
    destruct (mul_err _ _ HP) as (_ & Hd & _).
    destruct (add_err _ _ Hd) as (Hz & _ & _).
    destruct (mul_err _ _ Hz) as (_ & Hsx & _).
    destruct (mul_zero_finite false sx Hsx) as [s1 E1]. rewrite E1 in H5 |- *.
    destruct (add_zeros s1 s3) as [s2 E2]. rewrite E2 in H5 |- *.
    destruct (mul_finite_zero sw mw ew s2) as [s4 E4]. rewrite E4 in H5 |- *.
    rewrite value_add_zero_l in H5.
    destruct (mul_err _ _ HQ) as (_ & He & H4). rewrite Vh, value_add_zero_l in H4.
    destruct (add_err _ _ He) as (_ & Hs1 & _).
    exact (axis_bound north south h sh mh eh _ _ ltac:(lia) Vh Hs1 H4 H5).
Qed.

End FarCorner.

(** C6, as stated, fails on floats, in two ways. Rounding: with the bounds
    (0, 0, 1, 1), which satisfy minx < maxx and miny < maxy, and a 49 x 49
    raster, pixel (49, 49) is sent to
    (0.9999999999999999, 1.1102230246251565e-16), not to (maxx, miny) =
    (1, 0). Overflow: with the bounds (-1e308, 0, 1e308, 1), ordered as
    well, and a 2 x 2 raster, maxx - minx is infinite, and neither corner is
    met: the images of pixel (0, 0) and of pixel (2, 2) are not finite. *)
Lemma from_bounds_corners_missed :
  (Float.ltb (Float.of_Z 0) (Float.of_Z 1) = true /\
   exists t x y,
     from_bounds (Float.of_Z 0) (Float.of_Z 0) (Float.of_Z 1) (Float.of_Z 1) 49 49 = inr t /\
     Affine.pixel t 49 49 = inr (x, y) /\
     py_float (lit "0.9999999999999999") = Some x /\
     py_float (lit "1.1102230246251565e-16") = Some y /\
     Float.eqb x (Float.of_Z 1) = false /\ Float.eqb y (Float.of_Z 0) = false) /\
  (exists lo hi,
     py_float (lit "-1e308") = Some lo /\ py_float (lit "1e308") = Some hi /\
     Float.ltb lo hi = true /\
     exists t x0 y0 x y,
       from_bounds lo (Float.of_Z 0) hi (Float.of_Z 1) 2 2 = inr t /\
       Affine.pixel t 0 0 = inr (x0, y0) /\ Affine.pixel t 2 2 = inr (x, y) /\
       Float.is_finite x0 = false /\ Float.eqb x0 lo = false /\
       Float.is_finite x = false /\ Float.eqb x hi = false /\
       Float.is_finite y = false /\ Float.eqb y (Float.of_Z 0) = false).
Proof.
  split.
  - split; [reflexivity|]. eexists _, _, _.
    split; [vm_compute; reflexivity|]. split; [vm_compute; reflexivity|].
    repeat split; vm_compute; reflexivity.
  - eexists _, _. split; [vm_compute; reflexivity|]. split; [vm_compute; reflexivity|].
    split; [reflexivity|]. eexists _, _, _, _, _.
    split; [vm_compute; reflexivity|]. split; [vm_compute; reflexivity|].
    split; [vm_compute; reflexivity|]. repeat split; vm_compute; reflexivity.
Qed.

(** C6, amended: for bounds with minx < maxx and miny < maxy and positive
    width w and height h (below 2^53), [from_bounds] returns a transform.
    When its two scale factors are finite it sends pixel (0, 0) to
    (minx, maxy), equal as floats. It sends pixel (w, h) to (maxx, miny)
    within floating-point tolerance: a coordinate of the image that is
    finite differs from maxx by at most 2^-48 * (|minx| + |maxx|) +
    w * 2^-1070, respectively from miny by at most
    2^-48 * (|miny| + |maxy|) + h * 2^-1070. All of it is about the binary64
    arithmetic Python runs. *)
Theorem from_bounds_corners (w h : Z) (minx miny maxx maxy : spec_float) :
  (0 < w < 2 ^ 53)%Z -> (0 < h < 2 ^ 53)%Z ->
  Float.ltb minx maxx = true -> Float.ltb miny maxy = true ->
  exists t, from_bounds minx miny maxx maxy w h = inr t /\
    (Float.is_finite (Affine.a t) = true -> Float.is_finite (Affine.e t) = true ->
     exists x y, Affine.pixel t 0 0 = inr (x, y) /\
                 Float.eqb x minx = true /\ Float.eqb y maxy = true) /\
    exists x y, Affine.pixel t w h = inr (x, y) /\
      (Float.is_finite x = true ->
       (Rabs (value x - value maxx)
          <= bpow (-48) * (Rabs (value minx) + Rabs (value maxx)) + IZR w * bpow (-1070))%R) /\
      (Float.is_finite y = true ->
       (Rabs (value y - value miny)
          <= bpow (-48) * (Rabs (value maxy) + Rabs (value miny)) + IZR h * bpow (-1070))%R).
Proof.
  intros Hw Hh Hx Hy.
  apply ltb_not_nan in Hx as [Hminx _]. apply ltb_not_nan in Hy as [_ Hmaxy].
  destruct (far_corner_image minx miny maxx maxy w h Hw Hh)
    as (t & x & y & Ht & Hp & Hfx & Hfy).
  exists t. split; [done|]. split; [|by exists x, y].
  intros Ha He. revert Ht. unfold from_bounds.
  destruct (truediv_small (sub maxx minx) w) as [sx ->]; [lia..|].
  destruct (truediv_small (sub miny maxy) h) as [sy ->]; [lia..|].
  intros [= <-]. by apply origin_image.
Qed.

Lemma from_bounds_corners_witness :
  exists t x0 y0 x y,
    from_bounds (Float.of_Z (-10)) (Float.of_Z 5) (Float.of_Z 30) (Float.of_Z 20)
      100 50 = inr t /\
    Affine.pixel t 0 0 = inr (x0, y0) /\
    Float.eqb x0 (Float.of_Z (-10)) = true /\ Float.eqb y0 (Float.of_Z 20) = true /\
    Affine.pixel t 100 50 = inr (x, y) /\
    (Rabs (value x - value (Float.of_Z 30))
       <= bpow (-48) * (Rabs (value (Float.of_Z (-10))) + Rabs (value (Float.of_Z 30)))
          + IZR 100 * bpow (-1070))%R /\
    (Rabs (value y - value (Float.of_Z 5))
       <= bpow (-48) * (Rabs (value (Float.of_Z 20)) + Rabs (value (Float.of_Z 5)))
          + IZR 50 * bpow (-1070))%R.
Proof.
  destruct (from_bounds_corners 100 50
              (Float.of_Z (-10)) (Float.of_Z 5) (Float.of_Z 30) (Float.of_Z 20))
    as (t & Ht & H0 & x & y & Hp & Hx & Hy); [lia|lia|reflexivity|reflexivity|].
  exists t. vm_compute in Ht. injection Ht as <-.
  destruct H0 as (x0 & y0 & Hp0 & Hx0 & Hy0); [reflexivity|reflexivity|].
  exists x0, y0, x, y. vm_compute in Hp. injection Hp as <- <-.
  split; [reflexivity|]. split; [exact Hp0|]. split; [exact Hx0|]. split; [exact Hy0|].
  split; [vm_compute; reflexivity|]. split; [exact (Hx eq_refl)|exact (Hy eq_refl)].
Defined.

(** C7, as stated, fails: bounds that violate the invariant (minx=30 >
    maxx=-10, miny=20 > maxy=5), and a negative width, are accepted; a
    transform is returned. *)
Lemma from_bounds_accepts_degenerate :
  Float.ltb (Float.of_Z 30) (Float.of_Z (-10)) = false /\
  (exists t, from_bounds (Float.of_Z 30) (Float.of_Z 20) (Float.of_Z (-10))
               (Float.of_Z 5) 100 50 = inr t) /\
  (exists t, from_bounds (Float.of_Z 0) (Float.of_Z 0) (Float.of_Z 1)
               (Float.of_Z 1) (-4) 50 = inr t).
Proof.
  split; [reflexivity|]. split; eexists; vm_compute; reflexivity.
Qed.

(** C7, amended: the transform builder checks neither the bounds nor the
    sign of the dimensions. For dimensions below 2^53 in absolute value it
    fails exactly when width = 0 or height = 0, with ZeroDivisionError; for
    any other dimensions, negative ones included, and any bounds, ordered
    or not, it returns a transform. *)
Theorem from_bounds_fails_on_zero_only (west south east north : spec_float) width height :
  (- 2 ^ 53 < width < 2 ^ 53)%Z -> (- 2 ^ 53 < height < 2 ^ 53)%Z ->
  (width = 0%Z \/ height = 0%Z ->
     from_bounds west south east north width height = inl ZeroDivisionError) /\
  (width <> 0%Z -> height <> 0%Z ->
     exists t, from_bounds west south east north width height = inr t).
Proof. apply from_bounds_result. Qed.

Lemma from_bounds_fails_on_zero_only_witness :
  from_bounds (Float.of_Z (-10)) (Float.of_Z 5) (Float.of_Z 30) (Float.of_Z 20) 100 0
    = inl ZeroDivisionError /\
  exists t, from_bounds (Float.of_Z 30) (Float.of_Z 20) (Float.of_Z (-10)) (Float.of_Z 5)
              (-100) 50 = inr t.
Proof.
  split.
  - apply (from_bounds_fails_on_zero_only _ _ _ _ 100 0); [lia..|by right].
  - apply (from_bounds_fails_on_zero_only _ _ _ _ (-100) 50); [lia..|done|done].
Defined.

(** ** The batch conversion *)

Abbreviation bounds := (spec_float * spec_float * spec_float * spec_float)%type.

(** The radio button: "Type 2 (Lat/Lon)" or "Type 3 (Geocentric XYZ)". *)
Inductive output_type : Type := Type2 | Type3.

(** What a status slot of the page shows. *)
Inductive status : Type := Info | Success | Error (e : exn).

(** The calls into PIL, rasterio, zipfile and the operating system, by
    their outcome: an exception or a result. Temporary files are named by
    numbers. *)
Record env : Type := {
  (** [Image.open(png).convert("RGBA")], [np.array]: height and width *)
  image_open : list byte -> exn + Z * Z;
  (** [tempfile.NamedTemporaryFile(suffix=".tif", delete=False)] *)
  tempfile_error : nat -> option exn;
  (** [rasterio.open(path, 'w', ...)] and the four [dst.write] *)
  raster_write : nat -> Z -> Z -> Affine.t spec_float -> option exn;
  (** [reproject_to_xyz(src_path, dst_path)] *)
  reproject_to_xyz : nat -> nat -> option exn;
  (** [open(path, "rb").read()] *)
  read_file : nat -> exn + list byte;
  (** [zipf.writestr(name, data)] *)
  writestr : string -> list byte -> option exn
}.

(** The files uploaded in the session. *)
Record session : Type := {
  matched_keys : list string;
  png_files : gmap string (list byte);
  map_files : gmap string (list byte);
  output : output_type
}.

(** The eager parse of the calibration files: [bounds_cache] gets the keys
    whose file parses; for the others an error is shown. *)
Definition parse_maps (maps : gmap string (list byte)) (keys : list string)
    : gmap string bounds :=
  foldl (fun cache key =>
           match maps !! key ≫= parse_map py_float with
           | Some b => <[key := b]> cache
           | None => cache
           end) ∅ keys.

Definition bounds_cache (s : session) : gmap string bounds :=
  parse_maps (map_files s) (matched_keys s).

(** What the conversion handler acts on: the temporary files on disk, the
    entries of the archive, the conversion summary, the status slots, and
    (a ghost field) the keys whose image was given to [Image.open]. *)
Record world : Type := World {
  files : gset nat;
  archive : list (string * list byte);
  success : list string;
  failed : list (string * exn);
  total_bytes : nat;
  status_slots : gmap string status;
  decoded : list string
}.

(** Programs that act on the world and may raise; the world reached is
    kept when they raise. *)
Definition M (A : Type) : Type := world -> (exn + A) * world.

#[global] Instance M_ret : MRet M := fun _ x w => (inr x, w).
#[global] Instance M_bind : MBind M := fun _ _ k m w =>
  match m w with
  | (inl e, w') => (inl e, w')
  | (inr x, w') => k x w'
  end.

Definition raise {A} (e : exn) : M A := fun w => (inl e, w).
Definition lift {A} (r : exn + A) : M A := fun w => (r, w).
Definition check (r : option exn) : M unit :=
  match r with
  | Some e => raise e
  | None => mret tt
  end.
Definition modify (f : world -> world) : M unit := fun w => (inr tt, f w).

(** [try: body except Exception as e: handler(e)]. *)
Definition try_except {A} (body : M A) (handler : exn -> M A) : M A := fun w =>
  match body w with
  | (inl e, w') => handler e w'
  | r => r
  end.

(** [d[key]] on a dict. *)
Definition getitem {V} (d : gmap string V) (key : string) : M V :=
  match d !! key with
  | Some v => mret v
  | None => raise (KeyError key)
  end.

Definition set_files (f : gset nat -> gset nat) (w : world) : world :=
  World (f (files w)) (archive w) (success w) (failed w) (total_bytes w)
        (status_slots w) (decoded w).
Definition add_entry (name : string) (data : list byte) (w : world) : world :=
  World (files w) (archive w ++ [(name, data)]) (success w) (failed w)
        (total_bytes w + length data) (status_slots w) (decoded w).
Definition add_success (key : string) (w : world) : world :=
  World (files w) (archive w) (success w ++ [key]) (failed w) (total_bytes w)
        (status_slots w) (decoded w).
Definition add_failed (key : string) (e : exn) (w : world) : world :=
  World (files w) (archive w) (success w) (failed w ++ [(key, e)]) (total_bytes w)
        (status_slots w) (decoded w).
Definition set_status (key : string) (s : status) (w : world) : world :=
  World (files w) (archive w) (success w) (failed w) (total_bytes w)
        (<[key := s]> (status_slots w)) (decoded w).
Definition add_decoded (key : string) (w : world) : world :=
  World (files w) (archive w) (success w) (failed w) (total_bytes w)
        (status_slots w) (decoded w ++ [key]).

Section Convert.

Variable E : env.
Variable S : session.

(** A new temporary file, under a name no file on disk has. *)
Definition named_temporary_file : M nat := fun w =>
  let path := fresh (files w) in
  match tempfile_error E path with
  | Some e => (inl e, w)
  | None => (inr path, set_files (union {[path]}) w)
  end.

(** [os.remove(path)]. *)
Definition os_remove (path : nat) : M unit := fun w =>
  if decide (path ∈ files w)
  then (inr tt, set_files (fun fs => fs ∖ {[path]}) w)
  else (inl (FileNotFoundError path), w).

(** The body of the [try] of the conversion loop, for one key.
    [temp_xyz] is bound in the Type 3 branch only. *)
Definition convert_pair (key : string) : M unit :=
  modify (set_status key Info);;
  png ← getitem (png_files S) key;
  modify (add_decoded key);;
  '(height, width) ← lift (image_open E png);
  '(minx, miny, maxx, maxy) ← getitem (bounds_cache S) key;
  transform ← lift (from_bounds minx miny maxx maxy width height);
  temp_tif ← named_temporary_file;
  check (raster_write E temp_tif height width transform);;
  '(final_tif, temp_xyz) ← match output S with
                           | Type3 =>
                             temp_xyz ← named_temporary_file;
                             check (reproject_to_xyz E temp_tif temp_xyz);;
                             mret (temp_xyz, Some temp_xyz)
                           | Type2 => mret (temp_tif, None)
                           end;
  data ← lift (read_file E final_tif);
  check (writestr E (key +:+ "_geotiff.tif") data);;
  modify (add_entry (key +:+ "_geotiff.tif") data);;
  os_remove final_tif;;
  match output S, temp_xyz with
  | Type3, Some path => os_remove path
  | _, _ => mret tt
  end;;
  modify (set_status key Success);;
  modify (add_success key).

(** One round of the loop: the [try] and its [except Exception as e]. *)
Definition process_pair (key : string) : M unit :=
  try_except (convert_pair key)
    (fun e => modify (set_status key (Error e));; modify (add_failed key e)).

(** [for i, key in enumerate(matched_keys)]. *)
Fixpoint for_each (keys : list string) : M unit :=
  match keys with
  | [] => mret tt
  | key :: rest => process_pair key;; for_each rest
  end.

(** The handler of "Convert to GeoTIFF", shown when [bounds_cache] is not
    empty: a new archive and a new summary, then the loop. *)
Definition convert : M unit :=
  if decide (bounds_cache S = ∅) then mret tt
  else
    modify (fun w => World (files w) [] [] [] 0 (status_slots w) (decoded w));;
    for_each (matched_keys S).

End Convert.

(** ** Facts on the conversion loop *)

Ltac unfold_M :=
  unfold convert_pair, process_pair, try_except, named_temporary_file, os_remove,
    getitem, check, lift, raise, modify, mbind, M_bind, mret, M_ret in *.

(** Run a program through every outcome of its calls. *)
Ltac run_M := unfold_M; repeat (case_match; simplify_eq/=); simplify_eq/=.

Section ConvertFacts.

Variable E : env.
Variable S : session.

(** What the body of the [try] does to the summary and to the log. *)
Lemma convert_pair_summary key w r w' :
  convert_pair E S key w = (r, w') ->
  failed w' = failed w /\
  success w' = (if r is inr _ then success w ++ [key] else success w) /\
  decoded w' = (if png_files S !! key is Some _ then decoded w ++ [key] else decoded w).
Proof. intros H. run_M; done. Qed.

(** No exception leaves a round of the loop, and the round records its
    outcome. *)
Lemma process_pair_outcome key w :
  exists w', process_pair E S key w = (inr tt, w') /\
    match convert_pair E S key w with
    | (inl e, _) => failed w' = failed w ++ [(key, e)] /\ success w' = success w
    | (inr _, _) => failed w' = failed w /\ success w' = success w ++ [key]
    end /\
    decoded w' =
      (if png_files S !! key is Some _ then decoded w ++ [key] else decoded w).
Proof.
  unfold process_pair, try_except.
  destruct (convert_pair E S key w) as [[e|[]] w0] eqn:Hc;
    apply convert_pair_summary in Hc as (Hf & Hs & Hd);
    eexists; (split; [reflexivity|]); simpl; by rewrite Hf, Hs, Hd.
Qed.

Lemma for_each_app keys1 keys2 w :
  for_each E S (keys1 ++ keys2) w =
  match for_each E S keys1 w with
  | (inr _, w1) => for_each E S keys2 w1
  | r => r
  end.
Proof.
  revert w. induction keys1 as [|k keys1 IH]; intros w; [done|].
  cbn [app for_each]. unfold mbind, M_bind.
  destruct (process_pair E S k w) as [[e|[]] w1]; [done|]. apply IH.
Qed.

(** The loop runs to its end, and only adds to the summary. *)
Lemma for_each_grows keys w :
  exists w', for_each E S keys w = (inr tt, w') /\
    failed w `prefix_of` failed w' /\ success w `prefix_of` success w'.
Proof.
  revert w. induction keys as [|k keys IH]; intros w.
  - by exists w.
  - destruct (process_pair_outcome k w) as (w1 & Hp & Hs & _).
    destruct (IH w1) as (w' & Hw' & Hf' & Hs').
    exists w'. cbn [for_each]. unfold mbind, M_bind. rewrite Hp, Hw'.
    split; [done|].
    destruct (convert_pair E S k w) as [[e|[]] w0]; destruct Hs as [Ef Es];
      rewrite Ef in Hf'; rewrite Es in Hs'; split;
      try done; etrans; try eassumption; by apply prefix_app_r.
Qed.

(** With the PNG of every key at hand, [Image.open] is called on each key
    of the loop, in order. *)
Lemma for_each_decoded keys w :
  Forall (fun k => is_Some (png_files S !! k)) keys ->
  exists w', for_each E S keys w = (inr tt, w') /\ decoded w' = decoded w ++ keys.
Proof.
  revert w. induction keys as [|k keys IH]; intros w Hk.
  - exists w. by rewrite app_nil_r.
  - apply Forall_cons in Hk as [[png Hpng] Hk].
    destruct (process_pair_outcome k w) as (w1 & Hp & _ & Hd). rewrite Hpng in Hd.
    destruct (IH w1 Hk) as (w' & Hw' & Hd').
    exists w'. cbn [for_each]. unfold mbind, M_bind. rewrite Hp, Hw'.
    split; [done|]. by rewrite Hd', Hd, <- app_assoc.
Qed.

End ConvertFacts.

Lemma parse_maps_snoc maps keys k :
  parse_maps maps (keys ++ [k]) =
  match maps !! k ≫= parse_map py_float with
  | Some b => <[k := b]> (parse_maps maps keys)
  | None => parse_maps maps keys
  end.
Proof. unfold parse_maps. by rewrite foldl_app. Qed.

(** The cache of the eager parse holds the keys whose file parses. *)
Lemma parse_maps_lookup maps keys key :
  parse_maps maps keys !! key =
  if decide (key ∈ keys) then maps !! key ≫= parse_map py_float else None.
Proof.
  induction keys as [|k keys IH] using rev_ind.
  - rewrite decide_False by apply not_elem_of_nil. apply lookup_empty.
  - rewrite parse_maps_snoc. destruct (decide (key = k)) as [->|Hne].
    + rewrite decide_True by (apply elem_of_app; right; apply list_elem_of_singleton; done).
      destruct (maps !! k ≫= parse_map py_float) as [b|] eqn:Hb.
      * by rewrite lookup_insert_eq.
      * rewrite IH. by case_decide.
    + assert (key ∈ keys ++ [k] <-> key ∈ keys) as Hin
        by (rewrite elem_of_app, list_elem_of_singleton; tauto).
      destruct (maps !! k ≫= parse_map py_float);
        rewrite ?lookup_insert_ne by congruence; rewrite IH;
        repeat case_decide; tauto.
Qed.

(** ** The conversion loop: properties *)

(** A run used below: two matched pairs whose steps all succeed, but for
    what the environment is told to fail. *)
Definition env_ok : env := {|
  image_open := fun _ => inr (50, 100)%Z;
  tempfile_error := fun _ => None;
  raster_write := fun _ _ _ _ => None;
  reproject_to_xyz := fun _ _ => None;
  read_file := fun _ => inr [x49; x49];
  writestr := fun _ _ => None
|}.

(** The same, with a raster write that fails. *)
Definition env_write_fails : env := {|
  image_open := image_open env_ok;
  tempfile_error := tempfile_error env_ok;
  raster_write := fun _ _ _ _ => Some (Failure "disk full");
  reproject_to_xyz := reproject_to_xyz env_ok;
  read_file := read_file env_ok;
  writestr := writestr env_ok
|}.

(** Key "a" has a calibration file without its "MMPLL, 2" and "MMPLL, 3"
    lines, key "b" the four-field scenario. *)
Definition two_pairs (o : output_type) : session := {|
  matched_keys := ["a"; "b"];
  png_files := {["a" := []; "b" := []]};
  map_files := {["a" := unlines ["MMPLL, 1, -10.0, 20.0"]; "b" := scenario4]};
  output := o
|}.

Definition empty_world : world := World ∅ [] [] [] 0 ∅ [].

(** C8: whatever the calls into the libraries do, no exception leaves the
    loop, and every pair of the list is processed at the world the pairs
    before it left, failed or not: when its steps raise [e], the entry
    (key, e) is in the failure list at the end of the batch; when they do
    not, the key is in the success list. *)
Theorem batch_continues (E : env) (S : session) keys w :
  exists w', for_each E S keys w = (inr tt, w') /\
    forall i key, keys !! i = Some key ->
      exists wi, for_each E S (take i keys) w = (inr tt, wi) /\
        match convert_pair E S key wi with
        | (inl e, _) => (key, e) ∈ failed w'
        | (inr _, _) => key ∈ success w'
        end.
Proof.
  destruct (for_each_grows E S keys w) as (w' & Hw' & _).
  exists w'. split; [done|]. intros i key Hi.
  destruct (for_each_grows E S (take i keys) w) as (wi & Hwi & _).
  exists wi. split; [done|].
  rewrite <- (take_drop_middle keys i key Hi), for_each_app, Hwi in Hw'.
  cbn [for_each] in Hw'. unfold mbind, M_bind in Hw'.
  destruct (process_pair_outcome E S key wi) as (w1 & Hp & Hs & _).
  rewrite Hp in Hw'.
  destruct (for_each_grows E S (drop (Datatypes.S i) keys) w1)
    as (w'' & Hw'' & [lf Hf] & [ls Hsu]).
  rewrite Hw'' in Hw'. injection Hw' as <-.
  destruct (convert_pair E S key wi) as [[e|[]] w0]; destruct Hs as [Ef Es].
  - rewrite Hf, Ef, !elem_of_app, list_elem_of_singleton. auto.
  - rewrite Hsu, Es, !elem_of_app, list_elem_of_singleton. auto.
Qed.

Lemma batch_continues_witness :
  exists w', for_each env_ok (two_pairs Type2) ["a"; "b"] empty_world = (inr tt, w') /\
    ("a", KeyError "a") ∈ failed w' /\ "b" ∈ success w'.
Proof.
  destruct (batch_continues env_ok (two_pairs Type2) ["a"; "b"] empty_world)
    as (w' & Hw' & Hall).
  exists w'. split; [done|]. split.
  - destruct (Hall 0%nat "a" eq_refl) as (wi & Hwi & Ha).
    injection Hwi as <-. vm_compute in Ha. exact Ha.
  - destruct (Hall 1%nat "b" eq_refl) as (wi & Hwi & Hb).
    vm_compute in Hwi. injection Hwi as <-. vm_compute in Hb. exact Hb.
Defined.

(** C3, as stated, fails: in Type 2 mode, when the raster write of pair
    "b" fails, the temporary file created for the pair is still on disk
    after the pair's round, which records the failure. *)
Lemma temp_file_left_on_failure :
  let w' := (process_pair env_write_fails (two_pairs Type2) "b" empty_world).2 in
  files empty_world = ∅ /\ files w' = {[0%nat]} /\
  failed w' = [("b", Failure "disk full")].
Proof. vm_compute. done. Qed.

(** C3, amended: in Type 2 (lat/lon) mode, once the temporary raster file
    of a pair is created, the pair's round deletes it when the raster
    write, the read-back and the archive write all succeed, and then the
    files on disk are those of before the round; when one of these steps
    fails, the file is left on disk: the handler deletes nothing. *)
Theorem temp_file_cleanup (E : env) (S : session) key w png height width
    minx miny maxx maxy transform :
  output S = Type2 ->
  png_files S !! key = Some png ->
  image_open E png = inr (height, width) ->
  bounds_cache S !! key = Some (minx, miny, maxx, maxy) ->
  from_bounds minx miny maxx maxy width height = inr transform ->
  tempfile_error E (fresh (files w)) = None ->
  let temp_tif := fresh (files w) in
  let w' := (process_pair E S key w).2 in
  match raster_write E temp_tif height width transform, read_file E temp_tif with
  | None, inr data =>
    match writestr E (key +:+ "_geotiff.tif") data with
    | None => files w' = files w /\ key ∈ success w'
    | Some _ => files w' = {[temp_tif]} ∪ files w
    end
  | _, _ => files w' = {[temp_tif]} ∪ files w
  end.
Proof.
  intros Ho Hpng Himg Hb Ht Htmp temp_tif w'. subst temp_tif w'.
  pose proof (is_fresh (files w)) as Hfresh.
  unfold process_pair, try_except, convert_pair.
  unfold getitem, check, lift, raise, modify, mbind, M_bind, mret, M_ret,
    named_temporary_file, os_remove.
  rewrite Ho, Hpng. cbn -[from_bounds fresh]. rewrite Himg, Hb.
  cbn -[from_bounds fresh]. rewrite Ht. cbn -[fresh]. rewrite Htmp. cbn -[fresh].
  destruct (raster_write E _ height width transform); [done|].
  destruct (read_file E _) as [e|data]; [done|]. cbn -[fresh].
  destruct (writestr E _ data); [done|]. cbn -[fresh].
  rewrite decide_True by set_solver. cbn -[fresh]. split; set_solver.
Qed.

Lemma temp_file_cleanup_witness :
  files (process_pair env_ok (two_pairs Type2) "b" empty_world).2 = files empty_world /\
  "b" ∈ success (process_pair env_ok (two_pairs Type2) "b" empty_world).2.
Proof.
  pose proof (temp_file_cleanup env_ok (two_pairs Type2) "b" empty_world []
                50 100 (Float.of_Z (-10)) (Float.of_Z 5) (Float.of_Z 30) (Float.of_Z 20))
    as H.
  edestruct H as [Hf Hs]; [reflexivity|reflexivity|reflexivity|
                           vm_compute; reflexivity|vm_compute; reflexivity|reflexivity|].
  by split.
Defined.

(** The Type 3 path: the second [os.remove] names the file the first one
    has deleted. A pair whose steps all succeed is archived, then recorded
    as failed with FileNotFoundError, and its base raster stays on disk. *)
Lemma type3_second_remove_raises :
  let w' := (process_pair env_ok (two_pairs Type3) "b" empty_world).2 in
  files w' = {[0%nat]} /\ map fst (archive w') = ["b_geotiff.tif"] /\
  success w' = [] /\ failed w' = [("b", FileNotFoundError 1)].
Proof. vm_compute. done. Qed.

(** C4, as stated, fails: the calibration file of key "a" does not parse,
    so "a" is not in [bounds_cache]; yet the loop takes "a" up: it gives the
    PNG of "a" to [Image.open], and records the KeyError of the bounds
    lookup as the failure of "a". *)
Lemma unparsed_key_is_attempted :
  let s := two_pairs Type2 in
  let w' := (convert env_ok s empty_world).2 in
  (map_files s !! "a" ≫= parse_map py_float) = None /\
  bounds_cache s !! "a" = None /\
  "a" ∈ decoded w' /\
  failed w' = [("a", KeyError "a")] /\
  status_slots w' !! "a" = Some (Error (KeyError "a")).
Proof.
  vm_compute. repeat split; try reflexivity. apply list_elem_of_here.
Qed.

(** C4, amended: a matched key whose calibration file failed to parse is
    not left out of the loop. The loop takes it up like any other key:
    its image is decoded, then (when the decoding did not fail first) the
    lookup of its bounds raises KeyError, and the round records that as the
    failure of the key; no temporary file, archive entry or success entry
    is made for it. The loop goes through all matched keys in order, so the
    keys with a parsed calibration record are processed too. *)
Theorem unparsed_key_fails_in_loop (E : env) (S : session) :
  (forall key png w,
      key ∈ matched_keys S ->
      (map_files S !! key ≫= parse_map py_float) = None ->
      png_files S !! key = Some png ->
      bounds_cache S !! key = None /\
      process_pair E S key w =
        let e := match image_open E png with
                 | inl e => e
                 | inr _ => KeyError key
                 end in
        (inr tt, add_failed key e (set_status key (Error e)
                   (add_decoded key (set_status key Info w))))) /\
  (forall w,
      Forall (fun k => is_Some (png_files S !! k)) (matched_keys S) ->
      exists w', for_each E S (matched_keys S) w = (inr tt, w') /\
                 decoded w' = decoded w ++ matched_keys S).
Proof.
  split.
  - intros key png w Hin Hparse Hpng.
    assert (bounds_cache S !! key = None) as Hb.
    { unfold bounds_cache. rewrite parse_maps_lookup. by case_decide. }
    split; [done|].
    unfold process_pair, try_except, convert_pair.
    unfold getitem, check, lift, raise, modify, mbind, M_bind, mret, M_ret.
    rewrite Hpng, Hb. cbn. by destruct (image_open E png) as [e|[h wd]].
  - intros w Hk. by apply for_each_decoded.
Qed.

Lemma unparsed_key_fails_in_loop_witness :
  process_pair env_ok (two_pairs Type2) "a" empty_world =
  (inr tt, add_failed "a" (KeyError "a") (set_status "a" (Error (KeyError "a"))
             (add_decoded "a" (set_status "a" Info empty_world)))).
Proof.
  destruct (unparsed_key_fails_in_loop env_ok (two_pairs Type2)) as [H _].
  destruct (H "a" [] empty_world) as [_ Hp];
    [apply list_elem_of_here|vm_compute; reflexivity|vm_compute; reflexivity|].
  exact Hp.
Defined.

(** The text form of C9, for a line closed by \n and put at the start of a
    line: the parse of the text does not see it. *)
Lemma parse_text_insert_line {F} (float : str -> option F) pre line post :
  forallb (fun c => negb (is_linebreak c)) line = true ->
  recognized line = false ->
  parse_text float ((pre ++ [LF]) ++ line ++ LF :: post) =
  parse_text float ((pre ++ [LF]) ++ post).
Proof.
  intros Hl Hr. unfold parse_text.
  rewrite !splitlines_app_LF, (splitlines_line line post) by done.
  by rewrite parse_lines_drop_line.
Qed.

(** * Further properties of the parser *)

(** The number of occurrences of a character. *)
Definition count (c : N) (s : list N) : nat := length (filter (fun x => x = c) s).

Lemma cons_line_length c ls : ls <> [] -> length (cons_line c ls) = length ls.
Proof. by destruct ls. Qed.

Lemma split_nonempty sep s : split sep s <> [].
Proof.
  destruct s as [|c s]; simpl; [done|].
  destruct (c =? sep); [done|]. by destruct (split sep s).
Qed.

(** [s.split(sep)] has one field more than [s] has separators. *)
Lemma split_length sep s : length (split sep s) = Datatypes.S (count sep s).
Proof.
  unfold count. induction s as [|c s IH]; [done|].
  cbn [split]. rewrite filter_cons. destruct (N.eqb_spec c sep) as [->|Hne].
  - rewrite decide_True by done. simpl. by rewrite IH.
  - rewrite decide_False by done. rewrite cons_line_length by apply split_nonempty.
    apply IH.
Qed.

Section ParseMapMore.

Context {F : Type}.
Variable float : str -> option F.

Lemma parse_line_malformed coords line :
  recognized line = true -> fields float line = None ->
  parse_line float coords line = None.
Proof.
  unfold recognized, parse_line. fold tag1 tag2 tag3. intros Hr ->.
  destruct (startswith line tag1); [done|].
  destruct (startswith line tag2); [done|].
  by destruct (startswith line tag3).
Qed.

Lemma parse_line_some_fields coords coords' line :
  parse_line float coords line = Some coords' ->
  recognized line = true -> is_Some (fields float line).
Proof.
  intros Hp Hr. destruct (fields float line) as [p|] eqn:Hf; [by eexists|].
  by rewrite parse_line_malformed in Hp.
Qed.

(** A loop that ends has met only well-formed lines. *)
Lemma parse_lines_some_well_formed coords coords' lines :
  parse_lines float coords lines = Some coords' -> well_formed float lines.
Proof.
  revert coords. induction lines as [|x lines IH]; intros coords H; [constructor|].
  simpl in H. destruct (parse_line float coords x) as [c|] eqn:Hx; simpl in H; [|done].
  constructor; [by eapply parse_line_some_fields|by eapply IH].
Qed.

Lemma parse_text_malformed text line :
  line ∈ splitlines text ->
  recognized line = true ->
  fields float line = None ->
  parse_text float text = None.
Proof.
  intros Hin Hr Hf. unfold parse_text.
  destruct (parse_lines float ∅ (splitlines text)) as [c|] eqn:Hp; [|done].
  apply parse_lines_some_well_formed in Hp.
  unfold well_formed in Hp. rewrite Forall_forall in Hp.
  destruct (Hp line Hin Hr) as [p Hp']. congruence.
Qed.

(** X1: one line that starts with a tag but has not two floats at
    positions 2 and 3 makes the whole parse fail, wherever it stands and
    whatever the other lines hold, a later well-formed line of the same
    kind included. *)
Theorem parse_map_malformed_line contents text line :
  decode_utf8 contents = Some text ->
  line ∈ splitlines text ->
  recognized line = true ->
  fields float line = None ->
  parse_map float contents = None.
Proof.
  intros Hd Hin Hr Hf. unfold parse_map. rewrite Hd. simpl.
  by eapply parse_text_malformed.
Qed.

(** X2: a tuple returned by [parse_map] is never made up: the bytes are
    valid UTF-8, every line that starts with a tag is well formed, lines
    of all three kinds are there, and the four values are those of the last
    line of each kind. *)
Theorem parse_map_some_inv contents minx miny maxx maxy :
  parse_map float contents = Some (minx, miny, maxx, maxy) ->
  exists text,
    decode_utf8 contents = Some text /\
    well_formed float (splitlines text) /\
    last_fields float tag1 (splitlines text) = Some (minx, maxy) /\
    (exists y, last_fields float tag2 (splitlines text) = Some (maxx, y)) /\
    (exists x, last_fields float tag3 (splitlines text) = Some (x, miny)).
Proof.
  unfold parse_map, parse_text. intros H.
  destruct (decode_utf8 contents) as [text|]; simpl in H; [|done].
  exists text. split; [done|].
  destruct (parse_lines float ∅ (splitlines text)) as [c|] eqn:Hp; simpl in H; [|done].
  pose proof (parse_lines_some_well_formed _ _ _ Hp) as Hwf. split; [done|].
  destruct (parse_lines_last float _ Hwf) as (c' & Hc' & Kminx & Kmaxy & Kmaxx & Kminy).
  rewrite Hp in Hc'. injection Hc' as <-.
  unfold bounds_of in H.
  destruct (c !! "minx") as [v1|]; simpl in H; [|done].
  destruct (c !! "miny") as [v2|]; simpl in H; [|done].
  destruct (c !! "maxx") as [v3|]; simpl in H; [|done].
  destruct (c !! "maxy") as [v4|]; simpl in H; [|done].
  injection H as -> -> -> ->.
  destruct (last_fields float tag1 (splitlines text)) as [[a1 b1]|]; [|done].
  destruct (last_fields float tag2 (splitlines text)) as [[a2 b2]|]; [|done].
  destruct (last_fields float tag3 (splitlines text)) as [[a3 b3]|]; [|done].
  simpl in *. simplify_eq. eauto.
Qed.

(** A line with fewer than three commas has fewer than four fields, and
    cannot give two values. *)
Lemma fields_few_commas line : (count COMMA line < 3)%nat -> fields float line = None.
Proof.
  intros Hc. unfold fields.
  destruct (mapM float (slice 2 4 (split COMMA line))) as [vs|] eqn:Hm; [|done].
  apply length_mapM in Hm. unfold slice in Hm.
  rewrite length_take, length_drop, split_length in Hm.
  assert (length vs <= 1)%nat as Hvs by lia.
  by destruct vs as [|a [|b [|c vs]]]; simpl in *; try lia.
Qed.

(** X3: a line that starts with a tag and has fewer than three commas
    (fewer than four fields) makes [parse_map] fail. *)
Theorem parse_map_few_fields contents text line :
  decode_utf8 contents = Some text ->
  line ∈ splitlines text ->
  recognized line = true ->
  (count COMMA line < 3)%nat ->
  parse_map float contents = None.
Proof.
  intros Hd Hin Hr Hc. unfold parse_map. rewrite Hd. simpl.
  eapply parse_text_malformed; eauto using fields_few_commas.
Qed.

End ParseMapMore.

Lemma parse_map_malformed_line_witness :
  parse_map py_float
    (unlines ["MMPLL, 1, x, 20.0"; "MMPLL, 1, -10.0, 20.0"; "MMPLL, 2, 30.0, 5.0";
              "MMPLL, 3, 5.0, 5.0"]) = None.
Proof.
  eapply (parse_map_malformed_line py_float _ _ (lit "MMPLL, 1, x, 20.0"));
    [vm_compute; reflexivity|vm_compute; apply list_elem_of_here|
     vm_compute; reflexivity..].
Defined.

Lemma parse_map_some_inv_witness :
  exists text,
    decode_utf8 scenario4 = Some text /\
    well_formed py_float (splitlines text) /\
    last_fields py_float tag1 (splitlines text) = Some (Float.of_Z (-10), Float.of_Z 20) /\
    (exists y, last_fields py_float tag2 (splitlines text) = Some (Float.of_Z 30, y)) /\
    (exists x, last_fields py_float tag3 (splitlines text) = Some (x, Float.of_Z 5)).
Proof.
  apply (parse_map_some_inv py_float scenario4). vm_compute. reflexivity.
Defined.

Lemma parse_map_few_fields_witness :
  parse_map py_float
    (unlines ["MMPLL, 1, -10.0, 20.0"; "MMPLL, 2, 30.0"; "MMPLL, 3, 5.0, 5.0"]) = None.
Proof.
  eapply (parse_map_few_fields py_float _ _ (lit "MMPLL, 2, 30.0"));
    [vm_compute; reflexivity|
     vm_compute; apply list_elem_of_further, list_elem_of_here|
     vm_compute; reflexivity|vm_compute; lia].
Defined.

(** * Further properties of the text operations *)

Definition no_linebreak (l : str) : bool := forallb (fun c => negb (is_linebreak c)) l.

(** A line terminator: one line boundary character, or \r\n. *)
Definition is_terminator (t : str) : bool :=
  match t with
  | [c] => is_linebreak c
  | [c; c'] => (c =? CR) && (c' =? LF)
  | _ => false
  end.

(** The text made of the given lines, each followed by [term]. *)
Fixpoint join_lines (term : str) (ls : list str) : str :=
  match ls with
  | [] => []
  | l :: ls' => l ++ term ++ join_lines term ls'
  end.

(** The UTF-8 byte order mark. *)
Definition BOM : list byte := [xef; xbb; xbf].

Lemma splitlines_cons_line c s :
  is_linebreak c = false -> splitlines (c :: s) = cons_line c (splitlines s).
Proof. intros Hc. simpl. by rewrite Hc. Qed.

(** X4: no line that [splitlines] returns holds a line boundary
    character. *)
Theorem splitlines_no_linebreak s :
  Forall (fun l => no_linebreak l = true) (splitlines s).
Proof.
  induction s as [s IH] using (induction_ltof1 _ (@length N)).
  unfold ltof in IH. destruct s as [|c s]; [constructor|].
  cbn [splitlines]. destruct (is_linebreak c) eqn:Hc.
  - destruct s as [|c' s]; [by repeat constructor|].
    destruct (_ && _); (constructor; [done|]); apply IH; simpl; lia.
  - pose proof (IH s ltac:(simpl; lia)) as Hs.
    destruct (splitlines s) as [|l ls]; simpl.
    + repeat constructor. simpl. by rewrite Hc.
    + apply Forall_cons in Hs as [Hl Hls]. constructor; [|done].
      simpl. by rewrite Hc.
Qed.

Lemma splitlines_terminated line term rest :
  no_linebreak line = true -> is_terminator term = true ->
  (term = [CR] -> head rest <> Some LF) ->
  splitlines (line ++ term ++ rest) = line :: splitlines rest.
Proof.
  intros Hl Ht Hr. induction line as [|c line IH].
  - destruct term as [|c [|c' [|? ?]]]; try done; cbn [app is_terminator] in *.
    + cbn [splitlines]. rewrite Ht. destruct rest as [|c' rest]; [done|].
      destruct (N.eqb_spec c CR) as [->|]; [|done].
      destruct (N.eqb_spec c' LF) as [->|]; [|done].
      by destruct Hr.
    + cbn [splitlines]. apply andb_prop in Ht as [->%N.eqb_eq ->%N.eqb_eq]. done.
  - simpl in Hl. apply andb_prop in Hl as [Hc Hl]. apply negb_true_iff in Hc.
    cbn [app]. rewrite splitlines_cons_line, IH by done. done.
Qed.

(** A text of terminated lines starts with \n only when the terminator
    does. *)
Lemma head_join_lines term ls :
  term <> [] -> Forall (fun l => no_linebreak l = true) ls ->
  head (join_lines term ls) = Some LF -> head term = Some LF.
Proof.
  intros Ht Hls. destruct ls as [|[|c l] ls]; [done| |].
  - by destruct term.
  - apply Forall_cons in Hls as [Hl _]. simpl in *.
    apply andb_prop in Hl as [Hc _]. intros [= ->]. done.
Qed.

Lemma splitlines_joined term ls :
  is_terminator term = true -> Forall (fun l => no_linebreak l = true) ls ->
  splitlines (join_lines term ls) = ls.
Proof.
  intros Ht. induction ls as [|l ls IH]; intros Hls; [done|].
  apply Forall_cons in Hls as [Hl Hls].
  cbn [join_lines]. rewrite splitlines_terminated, IH; try done.
  intros -> Hh. apply head_join_lines in Hh; try done.
Qed.

(** X5: a text made of lines without line boundary characters, each
    followed by the same terminator (\n, \r\n, \r, ...), splits back
    into these lines. *)
Theorem splitlines_join_lines term ls :
  is_terminator term = true -> Forall (fun l => no_linebreak l = true) ls ->
  splitlines (join_lines term ls) = ls.
Proof. apply splitlines_joined. Qed.

Lemma splitlines_join_lines_witness :
  splitlines (join_lines [CR; LF] [lit "MMPLL, 1, -10.0, 20.0"; []; lit "x"]) =
  [lit "MMPLL, 1, -10.0, 20.0"; []; lit "x"].
Proof.
  apply splitlines_join_lines; [reflexivity|].
  repeat (apply Forall_cons; split; [reflexivity|]). constructor.
Defined.

(** X6: the parse does not depend on the line terminator: the same lines
    closed by \r\n, by \n or by any other terminator get the same result. *)
Theorem parse_map_line_endings {F} (float : str -> option F)
    contents contents' term term' ls :
  is_terminator term = true -> is_terminator term' = true ->
  Forall (fun l => no_linebreak l = true) ls ->
  decode_utf8 contents = Some (join_lines term ls) ->
  decode_utf8 contents' = Some (join_lines term' ls) ->
  parse_map float contents = parse_map float contents'.
Proof.
  intros Ht Ht' Hls Hd Hd'. unfold parse_map, parse_text.
  rewrite Hd, Hd'. simpl. by rewrite !splitlines_joined.
Qed.

(** The bytes of a file made of the given ASCII lines, each closed by
    \r\n. *)
Definition unlines_crlf (ls : list string) : list byte :=
  concat (map (fun l => blit l ++ [x0d; x0a]) ls).

Lemma parse_map_line_endings_witness :
  parse_map py_float
    (unlines_crlf ["MMPLL, 1, -10.0, 20.0"; "MMPLL, 2, 30.0, 5.0"; "MMPLL, 3, 5.0, 5.0"]) =
  parse_map py_float scenario4.
Proof.
  eapply (parse_map_line_endings py_float _ _ [CR; LF] [LF]
            [lit "MMPLL, 1, -10.0, 20.0"; lit "MMPLL, 2, 30.0, 5.0";
             lit "MMPLL, 3, 5.0, 5.0"]);
    [reflexivity|reflexivity| |vm_compute; reflexivity..].
  repeat (apply Forall_cons; split; [reflexivity|]). constructor.
Defined.

Lemma utf8_decode_N_ascii bs :
  Forall (fun b => b < 0x80) bs -> utf8_decode_N bs = Some bs.
Proof.
  induction bs as [|b bs IH]; intros Hbs; [done|].
  apply Forall_cons in Hbs as [Hb Hbs]. cbn [utf8_decode_N].
  apply N.ltb_lt in Hb. rewrite Hb, IH by done. done.
Qed.

(** X7: a file of ASCII bytes always decodes, to the same characters. *)
Theorem decode_utf8_ascii bs :
  Forall (fun b => Byte.to_N b < 0x80) bs ->
  decode_utf8 bs = Some (map Byte.to_N bs).
Proof.
  intros Hbs. unfold decode_utf8. apply utf8_decode_N_ascii.
  by apply Forall_fmap.
Qed.

Lemma decode_utf8_ascii_witness :
  decode_utf8 (blit "MMPLL, 1, -10.0, 20.0") = Some (lit "MMPLL, 1, -10.0, 20.0").
Proof.
  apply (decode_utf8_ascii (blit "MMPLL, 1, -10.0, 20.0")).
  repeat (apply Forall_cons; split; [reflexivity|]). constructor.
Defined.

Lemma decode_utf8_BOM bs : decode_utf8 (BOM ++ bs) = cons 0xFEFF <$> decode_utf8 bs.
Proof. reflexivity. Qed.

Lemma tail_cons_line c ls : tail (cons_line c ls) = tail ls.
Proof. by destruct ls. Qed.

Lemma head_cons_line c ls : exists l, head (cons_line c ls) = Some (c :: l).
Proof. destruct ls; simpl; eauto. Qed.

(** X8: [parse_map] decodes with "utf-8", not "utf-8-sig": in a file that
    begins with a byte order mark, the mark is the first character of the
    first line, which then starts with no tag; the result is that of the
    lines after the first. *)
Theorem parse_map_BOM {F} (float : str -> option F) contents :
  parse_map float (BOM ++ contents) =
  decode_utf8 contents ≫= fun text =>
    parse_lines float ∅ (tail (splitlines text)) ≫= bounds_of.
Proof.
  unfold parse_map. rewrite decode_utf8_BOM.
  destruct (decode_utf8 contents) as [text|]; [|done]. simpl. unfold parse_text.
  rewrite splitlines_cons_line by done.
  destruct (head_cons_line 0xFEFF (splitlines text)) as [l Hl].
  rewrite <- (tail_cons_line 0xFEFF (splitlines text)).
  destruct (cons_line 0xFEFF (splitlines text)) as [|l0 ls]; [done|].
  injection Hl as ->. cbn [parse_lines tail]. by rewrite parse_line_unrecognized.
Qed.

(** * Further properties of the conversion loop *)

(** The bytes the entries of the archive hold. *)
Definition archive_bytes (w : world) : nat :=
  sum_list (map (fun entry => length entry.2) (archive w)).

(** The archive name of a key. *)
Definition tif_name (key : string) : string := key +:+ "_geotiff.tif".

(** Run a round of the loop through every outcome of its calls. *)
Ltac run_round := unfold process_pair, try_except in *; run_M.

(** A path is not among the files left when it was removed. *)
Ltac removed_twice :=
  exfalso;
  match goal with
  | H : ?p ∈ _ ∖ {[ ?p ]} |- _ =>
    let H' := fresh in
    pose proof (proj1 (elem_of_difference _ _ _) H) as [_ H'];
    apply H', elem_of_singleton; reflexivity
  end.

(** A file just created is on disk. *)
Ltac just_created :=
  exfalso;
  match goal with
  | H : ?p ∉ {[ ?p ]} ∪ _ |- _ =>
    apply H, elem_of_union_l, elem_of_singleton; reflexivity
  end.

Section BatchMore.

Variable E : env.
Variable S : session.

(** What every round keeps, the loop keeps. *)
Lemma for_each_invariant (P : world -> Prop) keys w w' :
  (forall key w0 r w1, process_pair E S key w0 = (r, w1) -> P w0 -> P w1) ->
  for_each E S keys w = (inr tt, w') -> P w -> P w'.
Proof.
  intros Hstep. revert w. induction keys as [|k keys IH]; intros w Hrun Hw.
  - by injection Hrun as <-.
  - cbn [for_each] in Hrun. unfold mbind, M_bind in Hrun.
    destruct (process_pair E S k w) as [[e|[]] w1] eqn:Hp; [done|]. eauto.
Qed.

Lemma process_pair_bytes key w r w' :
  process_pair E S key w = (r, w') ->
  total_bytes w = archive_bytes w -> total_bytes w' = archive_bytes w'.
Proof.
  unfold archive_bytes. intros H Hw.
  run_round; rewrite ?map_app, ?sum_list_with_app, ?sum_list_app; simpl; lia.
Qed.

Lemma process_pair_files key w r w' :
  process_pair E S key w = (r, w') -> files w ⊆ files w'.
Proof.
  intros H. pose proof (is_fresh (files w)) as Hf1.
  pose proof (is_fresh ({[fresh (files w)]} ∪ files w)) as Hf2.
  run_round; set_solver.
Qed.

Lemma process_pair_type3 key w r w' :
  output S = Type3 ->
  process_pair E S key w = (r, w') -> success w' = success w.
Proof. intros Ho H. run_round; try done; removed_twice. Qed.

Lemma process_pair_type2_names key w r w' :
  output S = Type2 ->
  process_pair E S key w = (r, w') ->
  map fst (archive w) = map tif_name (success w) ->
  map fst (archive w') = map tif_name (success w').
Proof.
  unfold tif_name. intros Ho H Hw. pose proof (is_fresh (files w)) as Hf.
  run_round; rewrite ?map_app; simpl; try congruence; just_created.
Qed.

Lemma process_pair_count key w r w' :
  process_pair E S key w = (r, w') ->
  (length (success w') + length (failed w') =
   Datatypes.S (length (success w) + length (failed w)))%nat.
Proof.
  intros H. destruct (process_pair_outcome E S key w) as (w1 & Hp & Hs & _).
  rewrite Hp in H. injection H as _ <-.
  destruct (convert_pair E S key w) as [[e|[]] w0]; destruct Hs as [-> ->];
    rewrite length_app; simpl; lia.
Qed.

End BatchMore.

Section BatchTheorems.

Variable E : env.
Variable S : session.

(** The world the handler starts the loop in: a new archive and summary. *)
Definition fresh_summary (w : world) : world :=
  World (files w) [] [] [] 0 (status_slots w) (decoded w).

Lemma convert_runs w :
  bounds_cache S <> ∅ ->
  exists w', convert E S w = (inr tt, w') /\
             for_each E S (matched_keys S) (fresh_summary w) = (inr tt, w').
Proof.
  intros Hne. unfold convert. rewrite decide_False by done.
  destruct (for_each_grows E S (matched_keys S) (fresh_summary w)) as (w' & Hw' & _).
  exists w'. split; [|done]. unfold mbind, M_bind, modify. exact Hw'.
Qed.

Lemma for_each_count keys w w' :
  for_each E S keys w = (inr tt, w') ->
  (length (success w') + length (failed w') =
   length (success w) + length (failed w) + length keys)%nat.
Proof.
  revert w. induction keys as [|k keys IH]; intros w Hw.
  - injection Hw as <-. simpl. lia.
  - cbn [for_each] in Hw. unfold mbind, M_bind in Hw.
    destruct (process_pair E S k w) as [[e|[]] w1] eqn:Hp; [done|].
    apply process_pair_count in Hp. apply IH in Hw. simpl. lia.
Qed.

(** X10: in Type 3 (geocentric) mode no pair is ever recorded as a
    success: the second [os.remove] of the round names the file the first
    one deleted, so every key of the batch ends in the failure list, also
    when all its steps, archiving included, went through. *)
Theorem type3_never_succeeds keys w :
  output S = Type3 ->
  exists w', for_each E S keys w = (inr tt, w') /\
    success w' = success w /\
    length (failed w') = (length (failed w) + length keys)%nat.
Proof.
  intros Ho. destruct (for_each_grows E S keys w) as (w' & Hw' & _).
  exists w'. split; [done|].
  assert (success w' = success w) as Hs.
  { apply (for_each_invariant E S (fun w0 => success w0 = success w) keys w w');
      [|done..].
    intros key w0 r w1 Hp <-. by eapply process_pair_type3. }
  split; [done|].
  pose proof (for_each_count _ _ _ Hw') as Hc. rewrite Hs in Hc. lia.
Qed.

(** X11: the loop never deletes a file that was on disk before it: the
    only files it removes are temporary files of its own rounds. *)
Theorem batch_keeps_files keys w :
  exists w', for_each E S keys w = (inr tt, w') /\ files w ⊆ files w'.
Proof.
  destruct (for_each_grows E S keys w) as (w' & Hw' & _).
  exists w'. split; [done|].
  apply (for_each_invariant E S (fun w0 => files w ⊆ files w0) keys w w');
    [|done..].
  intros key w0 r w1 Hp Hsub. etrans; [exact Hsub|]. by eapply process_pair_files.
Qed.

(** X12: a conversion run gives every matched key exactly one entry of the
    summary: the numbers of successes and of failures add up to the number
    of matched keys. *)
Theorem convert_counts w :
  bounds_cache S <> ∅ ->
  exists w', convert E S w = (inr tt, w') /\
    (length (success w') + length (failed w') = length (matched_keys S))%nat.
Proof.
  intros Hne. destruct (convert_runs w Hne) as (w' & Hc & Hrun).
  exists w'. split; [done|].
  apply for_each_count in Hrun. simpl in Hrun. lia.
Qed.

(** X13: after a conversion run the total of the summary is the number of
    bytes the entries of the archive hold. *)
Theorem convert_total_bytes w :
  bounds_cache S <> ∅ ->
  exists w', convert E S w = (inr tt, w') /\ total_bytes w' = archive_bytes w'.
Proof.
  intros Hne. destruct (convert_runs w Hne) as (w' & Hc & Hrun).
  exists w'. split; [done|].
  apply (for_each_invariant E S (fun w0 => total_bytes w0 = archive_bytes w0)
           _ _ _ (process_pair_bytes E S) Hrun).
  reflexivity.
Qed.

(** X14: in Type 2 (lat/lon) mode the archive of a conversion run holds
    one entry per successful key, in the order of the success list, named
    "<key>_geotiff.tif"; a failed pair adds no entry. *)
Theorem convert_type2_archive w :
  output S = Type2 ->
  bounds_cache S <> ∅ ->
  exists w', convert E S w = (inr tt, w') /\
    map fst (archive w') = map tif_name (success w').
Proof.
  intros Ho Hne. destruct (convert_runs w Hne) as (w' & Hc & Hrun).
  exists w'. split; [done|].
  apply (for_each_invariant E S
           (fun w0 => map fst (archive w0) = map tif_name (success w0))
           _ _ _ (fun key w0 r w1 => process_pair_type2_names E S key w0 r w1 Ho) Hrun).
  reflexivity.
Qed.

(** X15: the cache of the eager parse holds a key exactly when the key is
    matched and its calibration file parses, with the parsed bounds as its
    value. *)
Theorem bounds_cache_lookup key :
  bounds_cache S !! key =
  if decide (key ∈ matched_keys S)
  then map_files S !! key ≫= parse_map py_float
  else None.
Proof. unfold bounds_cache. apply parse_maps_lookup. Qed.

(** X16: when the calibration file of no matched key parses, the handler
    converts nothing: the world is left as it is (the button is not even
    shown). *)
Theorem convert_nothing_parsed w :
  Forall (fun key => map_files S !! key ≫= parse_map py_float = None) (matched_keys S) ->
  convert E S w = (inr tt, w).
Proof.
  intros Hall. unfold convert. rewrite decide_True; [done|].
  apply map_eq. intros key. rewrite lookup_empty.
  unfold bounds_cache. rewrite parse_maps_lookup. case_decide as Hin; [|done].
  rewrite Forall_forall in Hall. by apply Hall.
Qed.

End BatchTheorems.

Lemma two_pairs_cache o : bounds_cache (two_pairs o) <> ∅.
Proof.
  intros H. assert (bounds_cache (two_pairs o) !! "b" = None) as Hb
    by (rewrite H; apply lookup_empty).
  vm_compute in Hb. discriminate.
Qed.

Lemma type3_never_succeeds_witness :
  exists w', for_each env_ok (two_pairs Type3) ["a"; "b"] empty_world = (inr tt, w') /\
    success w' = [] /\ length (failed w') = 2%nat.
Proof.
  apply (type3_never_succeeds env_ok (two_pairs Type3) ["a"; "b"] empty_world).
  reflexivity.
Defined.

Lemma convert_counts_witness :
  exists w', convert env_ok (two_pairs Type2) empty_world = (inr tt, w') /\
    (length (success w') + length (failed w') = 2)%nat.
Proof.
  apply (convert_counts env_ok (two_pairs Type2) empty_world), two_pairs_cache.
Defined.

Lemma convert_total_bytes_witness :
  exists w', convert env_ok (two_pairs Type3) empty_world = (inr tt, w') /\
    total_bytes w' = archive_bytes w'.
Proof.
  apply (convert_total_bytes env_ok (two_pairs Type3) empty_world), two_pairs_cache.
Defined.

Lemma convert_type2_archive_witness :
  exists w', convert env_ok (two_pairs Type2) empty_world = (inr tt, w') /\
    map fst (archive w') = map tif_name (success w').
Proof.
  apply (convert_type2_archive env_ok (two_pairs Type2) empty_world);
    [reflexivity|apply two_pairs_cache].
Defined.

(** A session whose only calibration file lacks two of its lines. *)
Definition one_bad_pair : session := {|
  matched_keys := ["a"];
  png_files := {["a" := []]};
  map_files := {["a" := unlines ["MMPLL, 1, -10.0, 20.0"]]};
  output := Type2
|}.

Lemma convert_nothing_parsed_witness :
  convert env_ok one_bad_pair empty_world = (inr tt, empty_world).
Proof.
  apply (convert_nothing_parsed env_ok one_bad_pair empty_world).
  apply Forall_cons; split; [vm_compute; reflexivity|constructor].
Defined.

(** * The matched keys *)

(** The order of Python on keys: code point by code point, a proper prefix
    first (on UTF-8 bytes this is the order of the bytes). *)
Definition key_le (k1 k2 : string) : Prop := String.leb k1 k2 = true.

#[global] Instance key_le_dec : RelDecision key_le.
Proof. intros k1 k2. unfold key_le. apply _. Defined.

#[global] Instance key_le_total : Total key_le.
Proof. intros k1 k2. apply String.leb_total. Qed.

(** [matched = set(png_files) & set(map_files)] and
    [matched_keys = sorted(matched)]. *)
Definition matched (png map : gmap string (list byte)) : gset string :=
  dom png ∩ dom map.

Definition sorted_matched (png map : gmap string (list byte)) : list string :=
  merge_sort key_le (elements (matched png map)).

Lemma sorted_matched_elem png map key :
  key ∈ sorted_matched png map <-> is_Some (png !! key) /\ is_Some (map !! key).
Proof.
  unfold sorted_matched. rewrite merge_sort_Permutation, elem_of_elements.
  unfold matched. by rewrite elem_of_intersection, !elem_of_dom.
Qed.

(** X17: the matched keys are the keys that have both a PNG and a
    calibration file, each once, in ascending order. *)
Theorem sorted_matched_spec png map :
  (forall key, key ∈ sorted_matched png map <->
               is_Some (png !! key) /\ is_Some (map !! key)) /\
  NoDup (sorted_matched png map) /\
  Sorted key_le (sorted_matched png map).
Proof.
  split; [apply sorted_matched_elem|]. unfold sorted_matched. split.
  - rewrite merge_sort_Permutation. apply NoDup_elements.
  - apply Sorted_merge_sort, _.
Qed.

(** X18: when the keys of the session are the matched keys computed from
    its files, the lookup of the PNG never raises in the loop: every
    matched key gets its image decoded, in the order of the keys, whatever
    fails along the way. *)
Theorem matched_keys_all_decoded (E : env) (S : session) w :
  matched_keys S = sorted_matched (png_files S) (map_files S) ->
  exists w', for_each E S (matched_keys S) w = (inr tt, w') /\
             decoded w' = decoded w ++ matched_keys S.
Proof.
  intros Hk. apply for_each_decoded. rewrite Forall_forall. intros key Hin.
  rewrite Hk in Hin. by apply sorted_matched_elem in Hin as [Hpng _].
Qed.

Lemma matched_keys_all_decoded_witness :
  exists w', for_each env_ok (two_pairs Type3) ["a"; "b"] empty_world = (inr tt, w') /\
             decoded w' = ["a"; "b"].
Proof.
  apply (matched_keys_all_decoded env_ok (two_pairs Type3) empty_world).
  vm_compute. reflexivity.
Defined.

(** * The name of the download *)






(** * Rounds of the loop, step by step *)

Section Rounds.

Variable E : env.
Variable S : session.

(** X20: in Type 3 mode the base raster of a pair is never removed: once
    its temporary file is created, it is on disk at the end of the round,
    whatever the later steps do. *)
Theorem type3_leaves_base_raster key w png height width minx miny maxx maxy transform :
  output S = Type3 ->
  png_files S !! key = Some png ->
  image_open E png = inr (height, width) ->
  bounds_cache S !! key = Some (minx, miny, maxx, maxy) ->
  from_bounds minx miny maxx maxy width height = inr transform ->
  tempfile_error E (fresh (files w)) = None ->
  fresh (files w) ∈ files (process_pair E S key w).2.
Proof.
  intros Ho Hpng Himg Hb Ht Htmp.
  pose proof (is_fresh ({[fresh (files w)]} ∪ files w)) as Hf2.
  destruct (process_pair E S key w) as [r w'] eqn:H. cbn [snd].
  run_round; try congruence; clear -Hf2; set_solver.
Qed.

(** X21: the status a round leaves in the slot of its key agrees with the
    summary: "Success" with the key added to the success list, or the error
    with the entry (key, error) added to the failure list. *)
Theorem status_agrees_with_summary key w :
  exists w', process_pair E S key w = (inr tt, w') /\
    ((status_slots w' !! key = Some Success /\
      success w' = success w ++ [key] /\ failed w' = failed w) \/
     (exists e, status_slots w' !! key = Some (Error e) /\
                failed w' = failed w ++ [(key, e)] /\ success w' = success w)).
Proof.
  destruct (process_pair E S key w) as [r w'] eqn:H.
  run_round; eexists; (split; [reflexivity|]); cbn;
    rewrite lookup_insert_eq; eauto 8.
Qed.

(** X22: in Type 2 mode a pair whose steps all succeed is archived under
    "<key>_geotiff.tif" with the bytes read back from its raster file, these
    bytes are added to the total, the key to the success list, and the
    files on disk are those of before. *)
Theorem type2_pair_archived key w png height width minx miny maxx maxy transform data :
  output S = Type2 ->
  png_files S !! key = Some png ->
  image_open E png = inr (height, width) ->
  bounds_cache S !! key = Some (minx, miny, maxx, maxy) ->
  from_bounds minx miny maxx maxy width height = inr transform ->
  tempfile_error E (fresh (files w)) = None ->
  raster_write E (fresh (files w)) height width transform = None ->
  read_file E (fresh (files w)) = inr data ->
  writestr E (tif_name key) data = None ->
  exists w', process_pair E S key w = (inr tt, w') /\
    archive w' = archive w ++ [(tif_name key, data)] /\
    total_bytes w' = (total_bytes w + length data)%nat /\
    success w' = success w ++ [key] /\ failed w' = failed w /\
    files w' = files w.
Proof.
  unfold tif_name. intros Ho Hpng Himg Hb Ht Htmp Hwr Hrd Hzip.
  pose proof (is_fresh (files w)) as Hf.
  destruct (process_pair E S key w) as [r w'] eqn:H.
  run_round; try congruence; try just_created.
  eexists. split; [reflexivity|]. cbn. repeat split; try congruence.
  clear -Hf. set_solver.
Qed.

End Rounds.

Lemma type3_leaves_base_raster_witness :
  0%nat ∈ files (process_pair env_ok (two_pairs Type3) "b" empty_world).2.
Proof.
  eapply (type3_leaves_base_raster env_ok (two_pairs Type3) "b" empty_world []
           50 100 (Float.of_Z (-10)) (Float.of_Z 5) (Float.of_Z 30) (Float.of_Z 20));
    first [reflexivity|vm_compute; reflexivity].
Defined.

Lemma type2_pair_archived_witness :
  exists w', process_pair env_ok (two_pairs Type2) "b" empty_world = (inr tt, w') /\
    archive w' = [("b_geotiff.tif", [x49; x49])] /\ total_bytes w' = 2%nat /\
    success w' = ["b"] /\ failed w' = [] /\ files w' = ∅.
Proof.
  eapply (type2_pair_archived env_ok (two_pairs Type2) "b" empty_world []
            50 100 (Float.of_Z (-10)) (Float.of_Z 5) (Float.of_Z 30) (Float.of_Z 20));
    first [reflexivity|vm_compute; reflexivity].
Defined.
